(** * SELinux labelling helpers of coreutils (src/selinux.c)

    A shallow embedding of [mode_to_security_class], [computecon],
    [defaultcon], [restorecon_private] and [restorecon], written as programs
    of a state monad over an explicit model of the process and of the file
    system, followed by the properties of the specification that concern
    them.

    Conventions.
    - A C [int] is a [Z]; every value that occurs is a return code, a small
      descriptor or a string length, so no wrap-around arises.
    - A [security_context_t] (a [char *]) is an [option string], [None]
      being the NULL pointer.
    - A [context_t] is the four-field record that libselinux parses a
      context string into.
    - Heap allocation ([strdup], [freecon], [context_free]) is not modelled:
      allocations succeed and releases have no observable effect.
    - A library call that is handed NULL where its contract wants an object
      ([context_new], [lsetfilecon], [fts_read], [fts_close]) is given the
      plain failure result of that call, so that every run has a result. *)

From Stdlib Require Import ZArith String Ascii List Bool Lia.
From stdpp Require Import base option list gmap strings.
Import ListNotations.

Open Scope Z_scope.

(** ** errno values and file-type bits (Linux) *)

Definition ENOENT : Z := 2.
Definition EBADF : Z := 9.
Definition EINVAL : Z := 22.
Definition ELOOP : Z := 40.
Definition ENODATA : Z := 61.

Definition S_IFMT : Z := 61440.    (* 0170000 *)
Definition S_IFIFO : Z := 4096.    (* 0010000 *)
Definition S_IFCHR : Z := 8192.    (* 0020000 *)
Definition S_IFDIR : Z := 16384.   (* 0040000 *)
Definition S_IFBLK : Z := 24576.   (* 0060000 *)
Definition S_IFREG : Z := 32768.   (* 0100000 *)
Definition S_IFLNK : Z := 40960.   (* 0120000 *)
Definition S_IFSOCK : Z := 49152.  (* 0140000 *)

Definition S_ISREG (m : Z) : bool := Z.land m S_IFMT =? S_IFREG.
Definition S_ISDIR (m : Z) : bool := Z.land m S_IFMT =? S_IFDIR.
Definition S_ISCHR (m : Z) : bool := Z.land m S_IFMT =? S_IFCHR.
Definition S_ISBLK (m : Z) : bool := Z.land m S_IFMT =? S_IFBLK.
Definition S_ISFIFO (m : Z) : bool := Z.land m S_IFMT =? S_IFIFO.
Definition S_ISLNK (m : Z) : bool := Z.land m S_IFMT =? S_IFLNK.
Definition S_ISSOCK (m : Z) : bool := Z.land m S_IFMT =? S_IFSOCK.

(** ** Labels *)

(** Modelled from the spec: the [context_t] of libselinux (selinux/context.h
    is not part of the sources), the structured label
    [{user, role, type, range}] of the specification's data model. *)
Record context_t : Type := Ctx {
  ctx_user : string;
  ctx_role : string;
  ctx_type : string;
  ctx_range : string
}.

(** Modelled from the spec: [context_type_get] and [context_type_set] of
    libselinux, the accessor and the in-place update of the [type]
    component. *)
Definition context_type_get (c : context_t) : string := ctx_type c.

Definition context_type_set (c : context_t) (t : string) : context_t :=
  {| ctx_user := ctx_user c; ctx_role := ctx_role c;
     ctx_type := t; ctx_range := ctx_range c |}.

(** The policy side of libselinux, which the sources only call: the
    path-pattern database behind [matchpathcon], the transition table behind
    [security_compute_create], the class table behind
    [string_to_security_class], and the parser and printer of context
    strings. *)
Record policy : Type := Policy {
  matchpathcon_db : string → Z → option string;
  compute_create_db : string → string → Z → option string;
  class_db : string → Z;
  context_parse : string → option context_t;
  context_str : context_t → string
}.

(** [context_new] on a possibly NULL string. *)
Definition context_new (pol : policy) (s : option string) : option context_t :=
  match s with
  | None => None
  | Some str => context_parse pol str
  end.

(** ** Calls and events *)

Inductive call : Type :=
| Matchpathcon (path : string) (mode : Z)
| Getcon
| Getfilecon (path : string)
| String_to_security_class (name : string)
| Security_compute_create (scon tcon : option string) (tclass : Z)
| Setfscreatecon (con : string)
| Getfscreatecon
| Open (path : string)
| Fstat (fd : Z)
| Lstat (path : string)
| Fgetfilecon (fd : Z)
| Lgetfilecon (path : string)
| Fsetfilecon (fd : Z) (con : string)
| Lsetfilecon (path : string) (con : option string)
| Close (fd : Z)
| Fts_open (root : string)
| Fts_read
| Fts_close.

(** What a run leaves in the trace: the library and system calls it made, the
    diagnostics it printed with [error], and two markers that carry results
    the calls alone do not show: the entry [fts_read] handed out, and the
    return of [restorecon_private]. *)
Inductive event : Type :=
| Sys (c : call)
| Diagnostic (errnum : Z) (msg : string)
| Walk_entry (path : string)
| Relabeled (path : string) (preserve : bool) (rc : Z).

(** ** The process and the file system *)

Record file : Type := File {
  f_mode : Z;                 (* st_mode *)
  f_con : option string;      (* the security.selinux attribute, when set *)
  f_target : string           (* where a symbolic link points *)
}.

(** The [FTS] structure as far as [restorecon] reads it. *)
Record fts_t : Type := Fts {
  fts_path : string;
  fts_pending : list string
}.

Inductive fts_ptr : Type := FtsNull | FtsHandle.

Record world : Type := World {
  w_errno : Z;
  w_con : string;                         (* the label of the process *)
  w_fscreate : option string;             (* the creation label of the process *)
  w_files : gmap string file;             (* path to object, links not followed *)
  w_fds : gmap Z string;                  (* open descriptors *)
  w_walk : string → list string;          (* what a physical walk of a root yields *)
  w_fts : option fts_t;                   (* the walk that is open, if any *)
  w_fault : nat → call → option Z;        (* injected failures: errno of the call
                                             made as the n-th event, if it fails
                                             for a reason outside the model *)
  w_trace : list event
}.

Definition with_errno (e : Z) (w : world) : world :=
  World e (w_con w) (w_fscreate w) (w_files w) (w_fds w) (w_walk w) (w_fts w)
        (w_fault w) (w_trace w).
Definition with_fscreate (c : option string) (w : world) : world :=
  World (w_errno w) (w_con w) c (w_files w) (w_fds w) (w_walk w) (w_fts w)
        (w_fault w) (w_trace w).
Definition with_files (fs : gmap string file) (w : world) : world :=
  World (w_errno w) (w_con w) (w_fscreate w) fs (w_fds w) (w_walk w) (w_fts w)
        (w_fault w) (w_trace w).
Definition with_fds (fds : gmap Z string) (w : world) : world :=
  World (w_errno w) (w_con w) (w_fscreate w) (w_files w) fds (w_walk w) (w_fts w)
        (w_fault w) (w_trace w).
Definition with_fts (t : option fts_t) (w : world) : world :=
  World (w_errno w) (w_con w) (w_fscreate w) (w_files w) (w_fds w) (w_walk w) t
        (w_fault w) (w_trace w).
Definition with_trace (tr : list event) (w : world) : world :=
  World (w_errno w) (w_con w) (w_fscreate w) (w_files w) (w_fds w) (w_walk w)
        (w_fts w) (w_fault w) tr.

(** ** The monad of C statements *)

Definition M (A : Type) : Type := world → A * world.

#[global] Instance M_ret : MRet M := λ A (a : A) (w : world), (a, w).
#[global] Instance M_bind : MBind M :=
  λ A B (f : A → M B) (m : M A) (w : world), let (a, w') := m w in f a w'.

Definition get_errno : M Z := λ w, (w_errno w, w).
Definition log (e : event) : M unit := λ w, (tt, with_trace (w_trace w ++ [e]) w).

(** A call is recorded, then either fails as the fault table says, returning
    [failed] with [errno] set, or runs [body]. *)
Definition do_call {A : Type} (c : call) (failed : A) (body : M A) : M A :=
  λ w, let w1 := with_trace (w_trace w ++ [Sys c]) w in
       match w_fault w (length (w_trace w)) c with
       | Some e => (failed, with_errno e w1)
       | None => body w1
       end.

(** A failing body: [errno] is set and [r] is returned. *)
Definition fail_with {A : Type} (e : Z) (r : A) : M A :=
  λ w, (r, with_errno e w).

(** ** System and library calls *)

Section Calls.

Variable pol : policy.

(** Where a path leads when symbolic links are followed (at most 40 of
    them, as the kernel does). *)
Fixpoint follow (fs : gmap string file) (links : nat) (path : string)
  : Z + file :=
  match fs !! path with
  | None => inl ENOENT
  | Some f =>
      if S_ISLNK (f_mode f) then
        match links with
        | O => inl ELOOP
        | S n => follow fs n (f_target f)
        end
      else inr f
  end.

(** Reading the label of an object that was found, or not. The calls return
    the length of the label with its terminator. *)
Definition read_label (o : Z + file) : M (Z * option string) :=
  match o with
  | inl e => fail_with e (-1, None)
  | inr f =>
      match f_con f with
      | None => fail_with ENODATA (-1, None)
      | Some c => mret (Z.of_nat (String.length c) + 1, Some c)
      end
  end.

Definition no_follow (fs : gmap string file) (path : string) : Z + file :=
  match fs !! path with
  | None => inl ENOENT
  | Some f => inr f
  end.

(** The object behind a descriptor; no negative number is a descriptor. *)
Definition fd_path (w : world) (fd : Z) : option string :=
  if fd <? 0 then None else w_fds w !! fd.

Definition by_fd (w : world) (fd : Z) : Z + file :=
  match fd_path w fd with
  | None => inl EBADF
  | Some path => no_follow (w_files w) path
  end.

Definition set_label (path : string) (con : string) (w : world) : world :=
  with_files (alter (λ f, File (f_mode f) (Some con) (f_target f)) path
                    (w_files w)) w.

Definition matchpathcon (path : string) (mode : Z) : M (Z * option string) :=
  do_call (Matchpathcon path mode) (-1, None)
    (match matchpathcon_db pol path mode with
     | Some c => mret (0, Some c)
     | None => fail_with ENOENT (-1, None)
     end).

Definition getcon : M (Z * option string) :=
  do_call Getcon (-1, None) (λ w, ((0, Some (w_con w)), w)).

Definition getfilecon (path : string) : M (Z * option string) :=
  do_call (Getfilecon path) (-1, None)
    (λ w, read_label (follow (w_files w) 40 path) w).

Definition lgetfilecon (path : string) : M (Z * option string) :=
  do_call (Lgetfilecon path) (-1, None)
    (λ w, read_label (no_follow (w_files w) path) w).

Definition fgetfilecon (fd : Z) : M (Z * option string) :=
  do_call (Fgetfilecon fd) (-1, None) (λ w, read_label (by_fd w fd) w).

Definition string_to_security_class (name : string) : M Z :=
  do_call (String_to_security_class name) 0 (mret (class_db pol name)).

Definition security_compute_create (scon tcon : option string) (tclass : Z)
  : M (Z * option string) :=
  do_call (Security_compute_create scon tcon tclass) (-1, None)
    (match scon, tcon with
     | Some s, Some t =>
         match compute_create_db pol s t tclass with
         | Some c => mret (0, Some c)
         | None => fail_with EINVAL (-1, None)
         end
     | _, _ => fail_with EINVAL (-1, None)
     end).

Definition getfscreatecon : M (Z * option string) :=
  do_call Getfscreatecon (-1, None) (λ w, ((0, w_fscreate w), w)).

Definition setfscreatecon (con : string) : M Z :=
  do_call (Setfscreatecon con) (-1) (λ w, (0, with_fscreate (Some con) w)).

Definition lsetfilecon (path : string) (con : option string) : M Z :=
  do_call (Lsetfilecon path con) (-1)
    (λ w, match con, w_files w !! path with
          | None, _ => fail_with EINVAL (-1) w
          | Some _, None => fail_with ENOENT (-1) w
          | Some c, Some _ => (0, set_label path c w)
          end).

Definition fsetfilecon (fd : Z) (con : string) : M Z :=
  do_call (Fsetfilecon fd con) (-1)
    (λ w, match fd_path w fd with
          | None => fail_with EBADF (-1) w
          | Some path =>
              match w_files w !! path with
              | None => fail_with ENOENT (-1) w
              | Some _ => (0, set_label path con w)
              end
          end).

(** The lowest descriptor that is not in use. *)
Definition lowest_free (fds : gmap Z string) : Z :=
  match List.find (λ n, bool_decide (fds !! (Z.of_nat n) = None))
                  (seq 0 (S (size fds))) with
  | Some n => Z.of_nat n
  | None => Z.of_nat (S (size fds))
  end.

(** [open (path, O_RDONLY | O_NOFOLLOW)]: a symbolic link is refused with
    ELOOP. *)
Definition open (path : string) : M Z :=
  do_call (Open path) (-1)
    (λ w, match w_files w !! path with
          | None => fail_with ENOENT (-1) w
          | Some f =>
              if S_ISLNK (f_mode f) then fail_with ELOOP (-1) w
              else let fd := lowest_free (w_fds w) in
                   (fd, with_fds (<[fd := path]> (w_fds w)) w)
          end).

Definition stat_result (o : Z + file) : M (Z * Z) :=
  match o with
  | inl e => fail_with e (-1, 0)
  | inr f => mret (0, f_mode f)
  end.

Definition fstat (fd : Z) : M (Z * Z) :=
  do_call (Fstat fd) (-1, 0) (λ w, stat_result (by_fd w fd) w).

Definition lstat (path : string) : M (Z * Z) :=
  do_call (Lstat path) (-1, 0)
    (λ w, stat_result (no_follow (w_files w) path) w).

Definition close (fd : Z) : M Z :=
  do_call (Close fd) (-1)
    (λ w, match fd_path w fd with
          | None => fail_with EBADF (-1) w
          | Some _ => (0, with_fds (delete fd (w_fds w)) w)
          end).

(** [error (0, errnum, msg)]: prints and returns. *)
Definition error (errnum : Z) (msg : string) : M unit :=
  log (Diagnostic errnum msg).

(** [fts_open (paths, FTS_PHYSICAL, NULL)] for the single root [root]. *)
Definition fts_open (root : string) : M fts_ptr :=
  do_call (Fts_open root) FtsNull
    (λ w, (FtsHandle, with_fts (Some (Fts root (w_walk w root))) w)).

(** [fts_read]: the next entry, whose path is then in [fts->fts_path], or
    NULL with [errno] 0 at the end of the walk. *)
Definition fts_read (fts : fts_ptr) : M (option string) :=
  do_call Fts_read None
    (λ w, match fts, w_fts w with
          | FtsHandle, Some t =>
              match fts_pending t with
              | [] => (None, with_errno 0 w)
              | p :: rest =>
                  (Some p,
                   with_trace (w_trace w ++ [Walk_entry p])
                              (with_fts (Some (Fts p rest)) w))
              end
          | _, _ => fail_with EINVAL None w
          end).

Definition fts_close (fts : fts_ptr) : M Z :=
  do_call Fts_close (-1)
    (λ w, match fts, w_fts w with
          | FtsHandle, Some _ => (0, with_fts None w)
          | _, _ => fail_with EINVAL (-1) w
          end).

(** [fts->fts_path] *)
Definition read_fts_path : M string :=
  λ w, (match w_fts w with Some t => fts_path t | None => EmptyString end, w).

(** [dirname] of libc: the path without its last component. *)
Definition is_slash (c : ascii) : bool := Ascii.eqb c "/"%char.

Fixpoint skip (p : ascii → bool) (l : list ascii) : list ascii :=
  match l with
  | [] => []
  | c :: l' => if p c then skip p l' else l
  end.

Definition dirname (path : string) : string :=
  match skip is_slash (rev (list_ascii_of_string path)) with
  | [] => if String.eqb path EmptyString then "."%string else "/"%string
  | last =>
      match skip (λ c, negb (is_slash c)) last with
      | [] => "."%string
      | up =>
          match skip is_slash up with
          | [] => "/"%string
          | dir => string_of_list_ascii (rev dir)
          end
      end
  end.

(** ** The functions of src/selinux.c *)

(** [mode_to_security_class]: the class of the first file type that [m]
    matches; 0 with [errno] EINVAL when none does. *)
Definition mode_to_security_class (m : Z) : M Z :=
  if S_ISREG m then string_to_security_class "file"
  else if S_ISDIR m then string_to_security_class "dir"
  else if S_ISCHR m then string_to_security_class "chr_file"
  else if S_ISBLK m then string_to_security_class "blk_file"
  else if S_ISFIFO m then string_to_security_class "fifo_file"
  else if S_ISLNK m then string_to_security_class "lnk_file"
  else if S_ISSOCK m then string_to_security_class "sock_file"
  else fail_with EINVAL 0.

(** [computecon]: the return code and what was stored through [con]. *)
Definition computecon (path : string) (mode : Z) : M (Z * option string) :=
  '(rc, scon) ← getcon;
  if rc <? 0 then mret (-1, None) else
  '(rc, tcon) ← getfilecon (dirname path);
  if rc <? 0 then mret (-1, None) else
  tclass ← mode_to_security_class mode;
  if tclass =? 0 then mret (-1, None) else
  security_compute_create scon tcon tclass.

(** [context_type_set (tcontext, context_type_get (scontext))], the merge of
    [defaultcon] (line 126) and of [restorecon_private] (line 202). *)
Definition merge_type (scontext tcontext : context_t) : context_t :=
  context_type_set tcontext (context_type_get scontext).

(** [defaultcon]. The label [quit] only releases memory. *)
Definition defaultcon (path : string) (mode : Z) : M Z :=
  '(rc, scon) ← matchpathcon path mode;
  if rc <? 0 then mret rc else
  '(rc, tcon) ← computecon path mode;
  if rc <? 0 then mret rc else
  match context_new pol scon with
  | None => mret (-1)
  | Some scontext =>
      match context_new pol tcon with
      | None => mret (-1)
      | Some tcontext =>
          setfscreatecon (context_str pol (merge_type scontext tcontext))
      end
  end.

(** The label [quit] of [restorecon_private]: the descriptor is closed
    whatever it is, and [rc] is returned. *)
Definition restorecon_quit (fd rc : Z) : M Z :=
  _ ← close fd; mret rc.

(** The body of [restorecon_private]. *)
Definition restorecon_private_body (path : string) (preserve : bool) : M Z :=
  if preserve then
    '(rc, tcon) ← getfscreatecon;
    if rc <? 0 then mret (-1)
    else lsetfilecon path tcon
  else
    fd ← open path;
    errno ← get_errno;
    if (fd =? 0) && negb (errno =? ELOOP) then restorecon_quit fd (-1) else
    '(rc, st_mode) ← (if negb (fd =? 0) then fstat fd else lstat path);
    if rc <? 0 then restorecon_quit fd rc else
    '(rc, scon) ← matchpathcon path st_mode;
    if rc <? 0 then restorecon_quit fd rc else
    match context_new pol scon with
    | None => restorecon_quit fd (-1)
    | Some scontext =>
        '(rc, tcon) ← (if negb (fd =? 0) then fgetfilecon fd
                       else lgetfilecon path);
        if rc =? 0 then restorecon_quit fd rc else
        match context_new pol tcon with
        | None => restorecon_quit fd rc
        | Some tcontext =>
            let con := context_str pol (merge_type scontext tcontext) in
            rc ← (if negb (fd =? 0) then fsetfilecon fd con
                  else lsetfilecon path (Some con));
            restorecon_quit fd rc
        end
    end.

(** [restorecon_private], with its return marked in the trace. *)
Definition restorecon_private (path : string) (preserve : bool) : M Z :=
  rc ← restorecon_private_body path preserve;
  _ ← log (Relabeled path preserve rc);
  mret rc.

(** [(bool) rc]: the conversion of an [int] to [bool]. *)
Definition bool_of_int (rc : Z) : bool := negb (rc =? 0).

(** [ok &= rc]: the bitwise and of [ok], promoted to [int], with [rc],
    converted back to [bool]. *)
Definition and_assign (ok : bool) (rc : Z) : bool :=
  bool_of_int (Z.land (Z.b2z ok) rc).

(** The [while (1)] loop of [restorecon]; [None] when [fuel] iterations did
    not reach the [break]. *)
Fixpoint restorecon_loop (fuel : nat) (fts : fts_ptr) (preserve ok : bool)
  : M (option bool) :=
  match fuel with
  | O => mret None
  | S fuel' =>
      ent ← fts_read fts;
      match ent with
      | None =>
          errno ← get_errno;
          if negb (errno =? 0) then
            _ ← error errno "fts_read failed"; mret (Some false)
          else mret (Some ok)
      | Some _ =>
          path ← read_fts_path;
          rc ← restorecon_private path preserve;
          restorecon_loop fuel' fts preserve (and_assign ok rc)
      end
  end.

(** [restorecon]. *)
Definition restorecon (fuel : nat) (path : string) (recurse preserve : bool)
  : M (option bool) :=
  if negb recurse then
    rc ← restorecon_private path preserve; mret (Some (bool_of_int rc))
  else
    fts ← fts_open path;
    r ← restorecon_loop fuel fts preserve true;
    match r with
    | None => mret None
    | Some ok =>
        rc ← fts_close fts;
        if negb (rc =? 0) then
          errno ← get_errno;
          _ ← error errno "fts_close failed"; mret (Some false)
        else mret (Some ok)
    end.

End Calls.

(** ** Vocabulary of the statements *)

(** [w'] is [w] after some calls were made: the open walk, the fault table
    and the walk oracle are the same, and the trace grew by calls only. *)
Definition after_calls (w w' : world) : Prop :=
  w_fts w' = w_fts w ∧ w_fault w' = w_fault w ∧ w_walk w' = w_walk w
  ∧ ∃ cs, w_trace w' = w_trace w ++ map Sys cs.

(** [w'] differs from [w] in nothing that [after_calls] watches. *)
Definition same_walk (w w' : world) : Prop :=
  w_fts w' = w_fts w ∧ w_fault w' = w_fault w ∧ w_walk w' = w_walk w
  ∧ w_trace w' = w_trace w.

Definition quiet {A : Type} (m : M A) : Prop := ∀ w, after_calls w (m w).2.
Definition silent {A : Type} (m : M A) : Prop := ∀ w, same_walk w (m w).2.

(** The number of entries a walk handle still has to hand out. *)
Definition remaining (fts : fts_ptr) (w : world) : nat :=
  match fts, w_fts w with
  | FtsHandle, Some t => length (fts_pending t)
  | _, _ => 0%nat
  end.

(** A stretch of trace in which every entry that [fts_read] handed out is
    followed by the calls of its relabel and by the return of that relabel. *)
Inductive visits (preserve : bool) : list event → Prop :=
| visits_nil : visits preserve []
| visits_other e evs :
    (∀ q, e ≠ Walk_entry q) → visits preserve evs → visits preserve (e :: evs)
| visits_entry p cs rc evs :
    visits preserve evs →
    visits preserve
      (Walk_entry p :: map Sys cs ++ Relabeled p preserve rc :: evs).

(** The return codes of the relabels of a trace, in order. *)
Fixpoint return_codes (evs : list event) : list Z :=
  match evs with
  | [] => []
  | Relabeled _ _ rc :: evs' => rc :: return_codes evs'
  | _ :: evs' => return_codes evs'
  end.

(** Whether a trace has a diagnostic, which [restorecon] prints exactly when
    [fts_read] or [fts_close] fails. *)
Fixpoint diagnosed (evs : list event) : bool :=
  match evs with
  | [] => false
  | Diagnostic _ _ :: _ => true
  | _ :: evs' => diagnosed evs'
  end.

(** ** Vocabulary of the further properties *)

(** The file types that [mode_to_security_class] tells apart, each with the
    class name it asks the policy for. *)
Definition class_table : list (Z * string) :=
  [(S_IFREG, "file"); (S_IFDIR, "dir"); (S_IFCHR, "chr_file");
   (S_IFBLK, "blk_file"); (S_IFIFO, "fifo_file"); (S_IFLNK, "lnk_file");
   (S_IFSOCK, "sock_file")]%string.

(** What is left of an object when its label is put aside. *)
Definition shape (f : file) : Z * string := (f_mode f, f_target f).

(** The object [f] with the label [con]. *)
Definition relabel_file (con : string) (f : file) : file :=
  File (f_mode f) (Some con) (f_target f).

(** [w'] is [w] up to [errno] and the trace. *)
Definition same_store (w w' : world) : Prop :=
  w_files w' = w_files w ∧ w_fds w' = w_fds w
  ∧ w_fscreate w' = w_fscreate w ∧ w_fts w' = w_fts w
  ∧ w_fault w' = w_fault w ∧ w_walk w' = w_walk w.

(** From [w] to [w'] no object appeared, vanished or changed its mode or
    its link target, and the creation label of the process stayed. *)
Definition labels_only (w w' : world) : Prop :=
  w_fscreate w' = w_fscreate w ∧ w_fault w' = w_fault w
  ∧ w_walk w' = w_walk w
  ∧ ∀ q, shape <$> w_files w' !! q = shape <$> w_files w !! q.

(** A program that takes every system to one related to it by [R]. *)
Definition keeps (R : world → world → Prop) {A : Type} (m : M A) : Prop :=
  ∀ w, R w (m w).2.

(** The descriptor table once [close (fd)] has succeeded or found nothing
    to close. *)
Definition drop_fd (fd : Z) (fds : gmap Z string) : gmap Z string :=
  if fd <? 0 then fds else delete fd fds.

(** The paths that [fts_read] handed out, in order. *)
Fixpoint entries (evs : list event) : list string :=
  match evs with
  | [] => []
  | Walk_entry p :: evs' => p :: entries evs'
  | _ :: evs' => entries evs'
  end.

(** The paths whose relabel returned, in order. *)
Fixpoint relabeled_paths (evs : list event) : list string :=
  match evs with
  | [] => []
  | Relabeled p _ _ :: evs' => p :: relabeled_paths evs'
  | _ :: evs' => relabeled_paths evs'
  end.

(** The file table after the objects at [ps] were given the label [con],
    one after the other. *)
Definition relabel_all (con : string) (ps : list string)
    (fs : gmap string file) : gmap string file :=
  fold_left (λ fs p, alter (relabel_file con) p fs) ps fs.

(** How a relabel of [path] that took [w] to [w'] with the code [rc] went:
    it returned 0 and gave the object some label; or it returned -1 and
    changed no file; or, in recompute mode only, the label that the object
    has did not parse, no file changed, and the code is the length of that
    label with its terminator. *)
Definition relabel_outcome (pol : policy) (path : string) (preserve : bool)
    (w : world) (rc : Z) (w' : world) : Prop :=
  (rc = 0 ∧ is_Some (w_files w !! path)
   ∧ ∃ con, w_files w' = alter (relabel_file con) path (w_files w))
  ∨ (rc = -1 ∧ w_files w' = w_files w)
  ∨ (preserve = false ∧ w_files w' = w_files w
     ∧ ∃ f cur, w_files w !! path = Some f ∧ f_con f = Some cur
                ∧ context_parse pol cur = None
                ∧ rc = Z.of_nat (String.length cur) + 1).

(** Between [open] and [quit]: [w'] has the descriptors, the creation
    label, the walk and the faults of [w]. *)
Definition steady (w w' : world) : Prop :=
  w_fds w' = w_fds w ∧ w_fscreate w' = w_fscreate w ∧ w_fts w' = w_fts w
  ∧ w_fault w' = w_fault w ∧ w_walk w' = w_walk w.

(** What every relabel leaves alone, and the descriptor table it leaves
    when no [close] is refused. *)
Definition relabel_frame (w w' : world) : Prop :=
  w_fscreate w' = w_fscreate w ∧ w_fts w' = w_fts w
  ∧ w_fault w' = w_fault w ∧ w_walk w' = w_walk w
  ∧ ((∀ n fd, w_fault w n (Close fd) = None) → w_fds w' = w_fds w).

(** The entries a walk handle still has to hand out. *)
Definition pending (fts : fts_ptr) (w : world) : list string :=
  match fts, w_fts w with
  | FtsHandle, Some t => fts_pending t
  | _, _ => []
  end.

(** Where a recompute-mode [restorecon_private] stands after line 197:
    it has left through [quit] with a descriptor to close and a code to
    return, or it is about to call [context_new (tcon)] at line 198. *)
Inductive line_198 : Type :=
| Left_by_quit (fd rc : Z)
| Calls_context_new (fd rc : Z) (scontext : context_t) (tcon : option string).

(** Lines 167 to 197 of [restorecon_private]. *)
Definition restorecon_private_to_line_198 (pol : policy) (path : string)
  : M line_198 :=
  fd ← open path;
  errno ← get_errno;
  if (fd =? 0) && negb (errno =? ELOOP) then mret (Left_by_quit fd (-1)) else
  '(rc, st_mode) ← (if negb (fd =? 0) then fstat fd else lstat path);
  if rc <? 0 then mret (Left_by_quit fd rc) else
  '(rc, scon) ← matchpathcon pol path st_mode;
  if rc <? 0 then mret (Left_by_quit fd rc) else
  match context_new pol scon with
  | None => mret (Left_by_quit fd (-1))
  | Some scontext =>
      '(rc, tcon) ← (if negb (fd =? 0) then fgetfilecon fd
                     else lgetfilecon path);
      if rc =? 0 then mret (Left_by_quit fd rc)
      else mret (Calls_context_new fd rc scontext tcon)
  end.

(** ** A concrete system

    A policy whose labels are the usual [user:role:type:range] strings, and a
    directory [/d] with two regular files and a symbolic link. *)

Module Demo.

Fixpoint fields (cur : string) (s : string) : list string :=
  match s with
  | EmptyString => [String.rev cur]
  | String c s' =>
      if Ascii.eqb c ":"%char then String.rev cur :: fields EmptyString s'
      else fields (String c cur) s'
  end.

Definition parse (s : string) : option context_t :=
  match fields EmptyString s with
  | [u; r; t; g] => Some (Ctx u r t g)
  | _ => None
  end.

Definition print (c : context_t) : string :=
  (ctx_user c ++ ":" ++ ctx_role c ++ ":" ++ ctx_type c ++ ":" ++ ctx_range c)%string.

Definition pattern_label : string := "system_u:object_r:etc_t:s0".
Definition transition_label : string := "user_u:role_r:tmp_t:s1".

Definition pol : policy :=
  {| matchpathcon_db := λ _ _, Some pattern_label;
     compute_create_db := λ _ _ _, Some transition_label;
     class_db := λ _, 6;
     context_parse := parse;
     context_str := print |}.

Definition files : gmap string file :=
  {[ "/d"%string := File S_IFDIR (Some "x_u:y_r:dir_t:s0"%string) "";
     "/d/a"%string := File S_IFREG (Some "x_u:y_r:old_t:s0"%string) "";
     "/d/b"%string := File S_IFREG (Some "x_u:y_r:old_t:s0"%string) "";
     "/d/l"%string := File S_IFLNK (Some "x_u:y_r:lnk_t:s0"%string) "/d/a" ]}.

(** A physical walk of [/d] hands out the directory before and after its
    entries; any other root is handed out alone. *)
Definition walk (root : string) : list string :=
  if String.eqb root "/d" then ["/d"; "/d/a"; "/d/b"; "/d/l"; "/d"]%string
  else [root].

Definition w0 : world :=
  {| w_errno := 0;
     w_con := "user_u:role_r:proc_t:s1";
     w_fscreate := Some "a_u:b_r:c_t:s3"%string;
     w_files := files;
     w_fds := {[ 0 := "/dev/tty"%string; 1 := "/dev/tty"%string;
                 2 := "/dev/tty"%string ]};
     w_walk := walk;
     w_fts := None;
     w_fault := λ _ _, None;
     w_trace := [] |}.

(** The same system, in which applying a label to [/d/a] by path is refused
    with EACCES. *)
Definition apply_fails (n : nat) (c : call) : option Z :=
  match c with
  | Lsetfilecon p _ => if String.eqb p "/d/a" then Some 13 else None
  | _ => None
  end.

Definition w1 : world :=
  World (w_errno w0) (w_con w0) (w_fscreate w0) (w_files w0) (w_fds w0)
        (w_walk w0) (w_fts w0) apply_fails (w_trace w0).

(** The same system, in which [/d/a] is a symbolic link without a label. *)
Definition w2 : world :=
  with_files (<["/d/a"%string := File S_IFLNK None "/nowhere"]> files) w0.

(** The first system, started with every descriptor closed. *)
Definition w3 : world := with_fds ∅ w0.

(** The first system, in which the label of [/d/a] is not a context. *)
Definition w4 : world :=
  with_files (<["/d/a"%string := File S_IFREG (Some "garbage"%string) ""]>
                files) w0.

(** The first system, in which [fts_close] is refused with EIO. *)
Definition close_fails (n : nat) (c : call) : option Z :=
  match c with
  | Fts_close => Some 5
  | _ => None
  end.

Definition w5 : world :=
  World (w_errno w0) (w_con w0) (w_fscreate w0) (w_files w0) (w_fds w0)
        (w_walk w0) (w_fts w0) close_fails (w_trace w0).



(** The first system, in which every label write by path is refused with
    EACCES. *)
Definition no_apply (n : nat) (c : call) : option Z :=
  match c with
  | Lsetfilecon _ _ => Some 13
  | _ => None
  end.

Definition w7 : world :=
  World (w_errno w0) (w_con w0) (w_fscreate w0) (w_files w0) (w_fds w0)
        (w_walk w0) (w_fts w0) no_apply (w_trace w0).

(** The first system, in which [/d/a] carries no label. *)
Definition w8 : world :=
  with_files (<["/d/a"%string := File S_IFREG None ""]> files) w0.

(** A policy whose path-pattern database has no entry at all. *)
Definition no_pattern : policy :=
  Policy (λ _ _, None) (compute_create_db pol) (class_db pol)
         (context_parse pol) (context_str pol).

End Demo.

(** * Properties *)

(** ** What a call leaves alone *)

Lemma after_calls_refl w : after_calls w w.
Proof.
  repeat split. exists []. simpl. by rewrite app_nil_r.
Qed.

Lemma after_calls_trans w1 w2 w3 :
  after_calls w1 w2 → after_calls w2 w3 → after_calls w1 w3.
Proof.
  intros (F1 & G1 & K1 & cs1 & T1) (F2 & G2 & K2 & cs2 & T2).
  repeat split; try congruence.
  exists (cs1 ++ cs2). rewrite T2, T1, map_app. by rewrite app_assoc.
Qed.

Lemma quiet_ret {A : Type} (a : A) : quiet (mret a).
Proof. intros w. apply after_calls_refl. Qed.

Lemma quiet_bind {A B : Type} (m : M A) (f : A → M B) :
  quiet m → (∀ a, quiet (f a)) → quiet (m ≫= f).
Proof.
  intros Hm Hf w. unfold mbind, M_bind.
  specialize (Hm w). destruct (m w) as [a w1]. simpl in Hm.
  eapply after_calls_trans; [exact Hm | apply Hf].
Qed.

Lemma quiet_silent {A : Type} (m : M A) : silent m → quiet m.
Proof.
  intros Hm w. destruct (Hm w) as (F & G & K & T).
  repeat split; try done. exists []. simpl. by rewrite app_nil_r.
Qed.

Lemma quiet_do_call {A : Type} (c : call) (failed : A) (body : M A) :
  silent body → quiet (do_call c failed body).
Proof.
  intros Hb w. unfold do_call.
  destruct (w_fault w (length (w_trace w)) c) as [e|]; simpl.
  - repeat split. by exists [c].
  - destruct (Hb (with_trace (w_trace w ++ [Sys c]) w)) as (F & G & K & T).
    repeat split; try done. exists [c]. by rewrite T.
Qed.

Lemma silent_ret {A : Type} (a : A) : silent (mret a).
Proof. by intros w. Qed.

Lemma silent_fail_with {A : Type} (e : Z) (r : A) : silent (fail_with e r).
Proof. by intros w. Qed.

Lemma silent_get_errno : silent get_errno.
Proof. by intros w. Qed.

Section CallFacts.
Variable pol : policy.

Lemma silent_read_label o : silent (read_label o).
Proof. intros w. unfold read_label. by repeat case_match. Qed.

Lemma silent_stat_result o : silent (stat_result o).
Proof. intros w. unfold stat_result. by repeat case_match. Qed.

Lemma quiet_matchpathcon path mode : quiet (matchpathcon pol path mode).
Proof. apply quiet_do_call. intros w. by case_match. Qed.

Lemma quiet_getcon : quiet getcon.
Proof. by apply quiet_do_call. Qed.

Lemma quiet_getfilecon path : quiet (getfilecon path).
Proof. apply quiet_do_call. intros w. apply silent_read_label. Qed.

Lemma quiet_lgetfilecon path : quiet (lgetfilecon path).
Proof. apply quiet_do_call. intros w. apply silent_read_label. Qed.

Lemma quiet_fgetfilecon fd : quiet (fgetfilecon fd).
Proof. apply quiet_do_call. intros w. apply silent_read_label. Qed.

Lemma quiet_getfscreatecon : quiet getfscreatecon.
Proof. by apply quiet_do_call. Qed.

Lemma quiet_lsetfilecon path con : quiet (lsetfilecon path con).
Proof. apply quiet_do_call. intros w. by repeat case_match. Qed.

Lemma quiet_fsetfilecon fd con : quiet (fsetfilecon fd con).
Proof. apply quiet_do_call. intros w. by repeat case_match. Qed.

Lemma quiet_open path : quiet (open path).
Proof. apply quiet_do_call. intros w. by repeat case_match. Qed.

Lemma quiet_fstat fd : quiet (fstat fd).
Proof. apply quiet_do_call. intros w. apply silent_stat_result. Qed.

Lemma quiet_lstat path : quiet (lstat path).
Proof. apply quiet_do_call. intros w. apply silent_stat_result. Qed.

Lemma quiet_close fd : quiet (close fd).
Proof. apply quiet_do_call. intros w. by repeat case_match. Qed.

Lemma quiet_restorecon_quit fd rc : quiet (restorecon_quit fd rc).
Proof.
  apply quiet_bind; [apply quiet_close | intros _; apply quiet_ret].
Qed.

Ltac quiet_step :=
  first
    [ apply quiet_ret
    | apply quiet_restorecon_quit
    | apply quiet_lsetfilecon
    | apply quiet_fsetfilecon
    | apply quiet_bind; [| intros ?]
    | apply quiet_getfscreatecon
    | apply quiet_open
    | apply quiet_fstat
    | apply quiet_lstat
    | apply quiet_matchpathcon
    | apply quiet_fgetfilecon
    | apply quiet_lgetfilecon
    | apply quiet_silent, silent_get_errno
    | case_match ].

Lemma quiet_restorecon_private_body path preserve :
  quiet (restorecon_private_body pol path preserve).
Proof.
  unfold restorecon_private_body. repeat quiet_step.
Qed.

End CallFacts.

(** ** What the calls of a relabel do to the store *)

Section Store.
Variable pol : policy.

Lemma lowest_free_nonneg fds : 0 ≤ lowest_free fds.
Proof. unfold lowest_free. case_match; lia. Qed.

(** [open] leaves the files alone; the descriptor it returns, when it is
    not negative, stands for [path]. *)
Lemma open_inv path w fd w1 :
  open path w = (fd, w1) →
  w_files w1 = w_files w
  ∧ (fd = -1 ∨ 0 ≤ fd ∧ fd_path w1 fd = Some path).
Proof.
  unfold open, do_call, fail_with. intros H.
  destruct (w_fault w _ _); simplify_eq/=; [by auto|].
  destruct (w_files w !! path) as [f|]; simplify_eq/=; [|by auto].
  destruct (S_ISLNK (f_mode f)); simplify_eq/=; [by auto|].
  split; [done|]. right.
  pose proof (lowest_free_nonneg (w_fds w)) as Hfd. split; [done|].
  unfold fd_path. simpl.
  destruct (Z.ltb_spec (lowest_free (w_fds w)) 0); [lia|].
  by rewrite lookup_insert_eq.
Qed.

(** The [stat] that [restorecon_private] chooses by [if (fd)]. *)
Lemma stat_inv path fd w rc m w1 :
  (if negb (fd =? 0) then fstat fd else lstat path) w = ((rc, m), w1) →
  (fd ≠ 0 → fd_path w fd = Some path) →
  w_files w1 = w_files w ∧ w_fds w1 = w_fds w
  ∧ (rc = -1 ∨ rc = 0 ∧ ∃ f, w_files w !! path = Some f ∧ m = f_mode f).
Proof.
  intros H Hfd.
  destruct (Z.eqb_spec fd 0) as [->|Hne]; simpl in H;
    unfold fstat, lstat, do_call, stat_result, by_fd, no_follow, fail_with,
      mret, M_ret in H;
    destruct (w_fault w _ _); simplify_eq/=; try by auto.
  - destruct (w_files w !! path) as [f|]; simplify_eq/=; [|by auto].
    repeat split; try done. right. split; [done|]. by exists f.
  - unfold fd_path in *. simpl in *. rewrite (Hfd Hne) in H.
    destruct (w_files w !! path) as [f|]; simplify_eq/=; [|by auto].
    repeat split; try done. right. split; [done|]. by exists f.
Qed.

Lemma matchpathcon_inv path mode w rc scon w1 :
  matchpathcon pol path mode w = ((rc, scon), w1) →
  w_files w1 = w_files w ∧ w_fds w1 = w_fds w
  ∧ (rc = -1 ∧ scon = None
     ∨ rc = 0 ∧ ∃ c, scon = Some c ∧ matchpathcon_db pol path mode = Some c).
Proof.
  unfold matchpathcon, do_call, fail_with, mret, M_ret. intros H.
  destruct (w_fault w _ _); simplify_eq/=; [by auto|].
  destruct (matchpathcon_db pol path mode) as [c|]; simplify_eq/=; [|by auto].
  repeat split; try done. right. split; [done|]. by exists c.
Qed.

(** The label read that [restorecon_private] chooses by [if (fd)]. *)
Lemma getfilecon_inv path fd w rc tcon w1 :
  (if negb (fd =? 0) then fgetfilecon fd else lgetfilecon path) w
    = ((rc, tcon), w1) →
  (fd ≠ 0 → fd_path w fd = Some path) →
  w_files w1 = w_files w ∧ w_fds w1 = w_fds w
  ∧ (rc = -1 ∧ tcon = None
     ∨ 0 < rc ∧ ∃ f, w_files w !! path = Some f ∧ tcon = f_con f
                     ∧ is_Some (f_con f)).
Proof.
  intros H Hfd.
  destruct (Z.eqb_spec fd 0) as [->|Hne]; simpl in H;
    unfold fgetfilecon, lgetfilecon, do_call, read_label, by_fd, no_follow,
      fail_with, mret, M_ret in H;
    destruct (w_fault w _ _); simplify_eq/=; try by auto.
  - destruct (w_files w !! path) as [f|]; simplify_eq/=; [|by auto].
    destruct (f_con f) as [c|] eqn:Hc; simplify_eq/=; [|by auto].
    repeat split; try done. right. split; [lia|]. exists f. by rewrite Hc.
  - unfold fd_path in *. simpl in *. rewrite (Hfd Hne) in H.
    destruct (w_files w !! path) as [f|]; simplify_eq/=; [|by auto].
    destruct (f_con f) as [c|] eqn:Hc; simplify_eq/=; [|by auto].
    repeat split; try done. right. split; [lia|]. exists f. by rewrite Hc.
Qed.

(** The label write that [restorecon_private] chooses by [if (fd)]. *)
Lemma setfilecon_inv path fd con w rc w1 :
  (if negb (fd =? 0) then fsetfilecon fd con else lsetfilecon path (Some con)) w
    = (rc, w1) →
  (fd ≠ 0 → fd_path w fd = Some path) →
  w_fds w1 = w_fds w
  ∧ (rc = -1 ∧ w_files w1 = w_files w
     ∨ rc = 0 ∧ ∃ f, w_files w !! path = Some f
                     ∧ w_files w1 !! path
                       = Some (File (f_mode f) (Some con) (f_target f))).
Proof.
  intros H Hfd.
  destruct (Z.eqb_spec fd 0) as [->|Hne]; simpl in H;
    unfold fsetfilecon, lsetfilecon, do_call, fail_with, set_label in H;
    destruct (w_fault w _ _); simplify_eq/=; try by auto.
  - destruct (w_files w !! path) as [f|] eqn:Hf; simplify_eq/=; [|by auto].
    split; [done|]. right. split; [done|]. exists f. split; [done|].
    by rewrite lookup_alter_eq, Hf.
  - unfold fd_path in *. simpl in *. rewrite (Hfd Hne) in H.
    destruct (w_files w !! path) as [f|] eqn:Hf; simplify_eq/=; [|by auto].
    split; [done|]. right. split; [done|]. exists f. split; [done|].
    by rewrite lookup_alter_eq, Hf.
Qed.

Lemma restorecon_quit_inv fd rc w r w1 :
  restorecon_quit fd rc w = (r, w1) → r = rc ∧ w_files w1 = w_files w.
Proof.
  unfold restorecon_quit, close, do_call, fail_with, mbind, M_bind, mret, M_ret.
  intros H. destruct (w_fault w _ _); simplify_eq/=; [done|].
  destruct (fd_path _ fd); by simplify_eq/=.
Qed.

End Store.

Section Recompute.
Variable pol : policy.

Lemma fstat_no_descriptor w :
  ∃ w1, fstat (-1) w = ((-1, 0), w1) ∧ w_files w1 = w_files w
        ∧ w_trace w1 = w_trace w ++ [Sys (Fstat (-1))]
        ∧ w_fault w1 = w_fault w.
Proof.
  unfold fstat, do_call, stat_result, by_fd, fd_path, fail_with.
  destruct (w_fault w _ _); simpl; by eexists.
Qed.

Lemma close_no_descriptor w :
  ∃ w1, close (-1) w = (-1, w1) ∧ w_files w1 = w_files w
        ∧ w_trace w1 = w_trace w ++ [Sys (Close (-1))].
Proof.
  unfold close, do_call, fd_path, fail_with.
  destruct (w_fault w _ _); simpl; by eexists.
Qed.

(** A recompute-mode relabel that returns 0 went through every step: the
    pattern lookup answered, both labels parsed, and the object now carries
    its former label with the type of the pattern's answer. *)
Lemma restorecon_private_body_success path w w1 f cur c :
  w_files w !! path = Some f → f_con f = Some cur →
  context_parse pol cur = Some c →
  restorecon_private_body pol path false w = (0, w1) →
  ∃ pattern s,
    matchpathcon_db pol path (f_mode f) = Some pattern
    ∧ context_parse pol pattern = Some s
    ∧ w_files w1 !! path =
        Some (File (f_mode f)
                (Some (context_str pol
                   (Ctx (ctx_user c) (ctx_role c) (ctx_type s) (ctx_range c))))
                (f_target f)).
Proof.
  intros Hf Hcon Hparse. unfold restorecon_private_body, mbind, M_bind.
  destruct (open path w) as [fd w1'] eqn:Hopen.
  apply open_inv in Hopen as [Fo Hfd]. unfold get_errno at 1.
  destruct ((fd =? 0) && negb (w_errno w1' =? ELOOP)).
  { intros [? _]%restorecon_quit_inv. lia. }
  destruct Hfd as [->|[Hfd0 Hfd]].
  { simpl. destruct (fstat_no_descriptor w1') as (w2 & -> & _). simpl.
    intros [? _]%restorecon_quit_inv. lia. }
  destruct ((if negb (fd =? 0) then fstat fd else lstat path) w1')
    as [[rc m] w2] eqn:Hstat.
  apply stat_inv in Hstat as (F2 & D2 & Hstat); [|done].
  destruct Hstat as [->|(-> & f' & Hf' & ->)].
  { simpl. intros [? _]%restorecon_quit_inv. lia. }
  rewrite Fo, Hf in Hf'. injection Hf' as <-. simpl.
  destruct (matchpathcon pol path (f_mode f) w2) as [[rc scon] w3] eqn:Hm.
  apply matchpathcon_inv in Hm as (F3 & D3 & Hm).
  destruct Hm as [[-> ->]|(-> & pattern & -> & Hdb)].
  { simpl. intros [? _]%restorecon_quit_inv. lia. }
  simpl. destruct (context_parse pol pattern) as [s|] eqn:Hs.
  2:{ intros [? _]%restorecon_quit_inv. lia. }
  assert (fd_path w3 fd = Some path) as Hfd3.
  { unfold fd_path in *. by rewrite D3, D2. }
  destruct ((if negb (fd =? 0) then fgetfilecon fd else lgetfilecon path) w3)
    as [[rc tcon] w4] eqn:Hg.
  apply getfilecon_inv in Hg as (F4 & D4 & Hg); [|done].
  destruct Hg as [[-> ->]|(Hrc & f' & Hf' & -> & _)].
  { simpl. intros [? _]%restorecon_quit_inv. lia. }
  rewrite F3, F2, Fo, Hf in Hf'. injection Hf' as <-.
  destruct (rc =? 0) eqn:E; [apply Z.eqb_eq in E; lia|].
  rewrite Hcon. simpl. rewrite Hparse.
  unfold merge_type, context_type_set, context_type_get.
  assert (fd_path w4 fd = Some path) as Hfd4.
  { unfold fd_path in *. by rewrite D4. }
  match goal with
  | |- context [(if negb (fd =? 0) then fsetfilecon fd ?con else _) w4] =>
      destruct ((if negb (fd =? 0) then fsetfilecon fd con
                 else lsetfilecon path (Some con)) w4) as [rc' w5] eqn:Hset
  end.
  apply setfilecon_inv in Hset as (D5 & Hset); [|done].
  intros [E' F6]%restorecon_quit_inv.
  destruct Hset as [[? _]|(_ & f' & Hf' & Hnew)]; [lia|].
  rewrite F4, F3, F2, Fo, Hf in Hf'. injection Hf' as <-.
  exists pattern, s. by rewrite F6.
Qed.

End Recompute.

(** ** The walk *)

Lemma visits_app preserve evs1 evs2 :
  visits preserve evs1 → visits preserve evs2 → visits preserve (evs1 ++ evs2).
Proof.
  induction 1 as [|e evs He Hv IH|p cs rc evs Hv IH]; intros H2; simpl.
  - done.
  - by apply visits_other, IH.
  - rewrite <- app_assoc. simpl. by apply visits_entry, IH.
Qed.

Lemma visits_calls preserve cs evs :
  visits preserve evs → visits preserve (map Sys cs ++ evs).
Proof.
  intros Hv. induction cs as [|c cs IH]; simpl; [done|].
  by apply visits_other.
Qed.

Lemma entry_after_relabel cs e evs mid q post :
  (∀ p, e ≠ Walk_entry p) →
  map Sys cs ++ e :: evs = mid ++ Walk_entry q :: post →
  ∃ mid', evs = mid' ++ Walk_entry q :: post.
Proof.
  intros He. revert mid.
  induction cs as [|c cs IH]; intros [|e' mid] E; simplify_eq/=.
  - by destruct (He q).
  - by exists mid.
  - by eapply IH.
Qed.

(** In such a stretch, what follows an entry starts with its relabel. *)
Lemma visits_entry_relabeled preserve evs :
  visits preserve evs →
  ∀ mid q post, evs = mid ++ Walk_entry q :: post →
  ∃ cs rc rest, post = map Sys cs ++ Relabeled q preserve rc :: rest.
Proof.
  induction 1 as [|e evs He Hv IH|p cs rc evs Hv IH]; intros mid q post E.
  - by destruct mid.
  - destruct mid as [|e' mid]; simplify_eq/=.
    + by destruct (He q).
    + by eapply IH.
  - destruct mid as [|e' mid]; simpl in E.
    + injection E as <- <-. by exists cs, rc, evs.
    + injection E as _ E.
      apply entry_after_relabel in E as [mid' ->]; [|done]. by eapply IH.
Qed.

Lemma return_codes_calls cs evs :
  return_codes (map Sys cs ++ evs) = return_codes evs.
Proof. induction cs as [|c cs IH]; simpl; [done|exact IH]. Qed.

Lemma diagnosed_calls cs evs : diagnosed (map Sys cs ++ evs) = diagnosed evs.
Proof. induction cs as [|c cs IH]; simpl; [done|exact IH]. Qed.

Lemma return_codes_app evs1 evs2 :
  return_codes (evs1 ++ evs2) = return_codes evs1 ++ return_codes evs2.
Proof.
  induction evs1 as [|e evs1 IH]; simpl; [done|].
  destruct e; simpl; by rewrite ?IH.
Qed.

Lemma diagnosed_app evs1 evs2 :
  diagnosed (evs1 ++ evs2) = diagnosed evs1 || diagnosed evs2.
Proof.
  induction evs1 as [|e evs1 IH]; simpl; [done|]. by destruct e.
Qed.

(** [ok &= rc] keeps [ok] exactly when the lowest bit of [rc] is set. *)
Lemma and_assign_odd ok rc : and_assign ok rc = ok && Z.odd rc.
Proof.
  unfold and_assign, bool_of_int. destruct ok; simpl; [|done].
  change 1 with (Z.ones 1). rewrite Z.land_comm, Z.land_ones by lia.
  change (2 ^ 1) with 2. rewrite <- Z.bit0_mod, Z.bit0_odd.
  by destruct (Z.odd rc).
Qed.

(** Folding [ok &= rc] over return codes. *)
Lemma fold_and_assign rcs ok :
  fold_left and_assign rcs ok = ok && forallb Z.odd rcs.
Proof.
  revert ok. induction rcs as [|rc rcs IH]; intros ok; simpl.
  - by rewrite andb_true_r.
  - by rewrite IH, and_assign_odd, andb_assoc.
Qed.

Section Walk.
Variable pol : policy.

Lemma restorecon_private_events path preserve w :
  ∃ rc w' cs,
    restorecon_private pol path preserve w = (rc, w')
    ∧ w_fts w' = w_fts w ∧ w_fault w' = w_fault w ∧ w_walk w' = w_walk w
    ∧ w_trace w' = w_trace w ++ map Sys cs ++ [Relabeled path preserve rc].
Proof.
  unfold restorecon_private, mbind, M_bind.
  pose proof (quiet_restorecon_private_body pol path preserve w) as H.
  destruct (restorecon_private_body pol path preserve w) as [rc w1].
  destruct H as (F & G & K & cs & T). simpl in *.
  exists rc, (with_trace (w_trace w1 ++ [Relabeled path preserve rc]) w1), cs.
  repeat split; try done. simpl. by rewrite T, <- app_assoc.
Qed.

(** [fts_read] either returns NULL, or hands out the first pending entry
    and leaves its path in the handle. *)
Lemma fts_read_cases fts w :
  (∃ w', fts_read fts w = (None, w')
         ∧ w_trace w' = w_trace w ++ [Sys Fts_read])
  ∨ (∃ p rest t w',
       fts = FtsHandle ∧ w_fts w = Some t ∧ fts_pending t = p :: rest
       ∧ fts_read fts w = (Some p, w')
       ∧ w_fts w' = Some (Fts p rest)
       ∧ w_trace w' = w_trace w ++ [Sys Fts_read; Walk_entry p]).
Proof.
  unfold fts_read, do_call, fail_with.
  destruct (w_fault w (length (w_trace w)) Fts_read) as [e|]; simpl.
  { left. by eexists. }
  destruct fts; simpl; [left; by eexists|].
  destruct (w_fts w) as [t|] eqn:Ht; simpl; [|left; by eexists].
  destruct (fts_pending t) as [|p rest] eqn:Hp; [left; by eexists|].
  right. eexists p, rest, t, _. repeat split; simpl; try done.
  by rewrite <- app_assoc.
Qed.

(** The loop ends within one iteration more than the walk has entries; it
    relabels every entry handed out, and its result is [ok] lowered by every
    return code whose lowest bit is clear and by a failure of [fts_read]. *)
Lemma restorecon_loop_run fuel :
  ∀ fts preserve ok w, (remaining fts w < fuel)%nat →
  ∃ r w' evs,
    restorecon_loop pol fuel fts preserve ok w = (Some r, w')
    ∧ w_trace w' = w_trace w ++ evs ∧ visits preserve evs
    ∧ r = ok && forallb Z.odd (return_codes evs) && negb (diagnosed evs).
Proof.
  induction fuel as [|fuel IH]; intros fts preserve ok w Hfuel; [lia|].
  simpl. unfold mbind, M_bind.
  destruct (fts_read_cases fts w) as
    [(w1 & -> & T1)|(p & rest & t & w1 & -> & Ht & Hp & -> & F1 & T1)].
  - unfold get_errno, error, log. simpl.
    destruct (w_errno w1 =? 0); simpl; eexists _, _, _;
      (split; [reflexivity|]); simpl; rewrite T1, <- ?app_assoc;
      (split; [reflexivity|]); simpl;
      (split; [repeat (apply visits_other; [done|]); apply visits_nil|]);
      by destruct ok.
  - unfold read_fts_path at 1. rewrite F1. simpl.
    destruct (restorecon_private_events p preserve w1)
      as (rc & w2 & cs & -> & F2 & G2 & K2 & T2).
    destruct (IH FtsHandle preserve (and_assign ok rc) w2)
      as (r & w' & evs & -> & T & V & R).
    { unfold remaining in *. rewrite F2, F1. rewrite Ht, Hp in Hfuel.
      simpl in *. lia. }
    eexists _, _, _. split; [reflexivity|].
    rewrite T, T2, T1, <- !app_assoc. split; [reflexivity|]. simpl.
    split; [apply visits_other; [done|]; by apply visits_entry|].
    rewrite return_codes_calls, diagnosed_calls. simpl.
    rewrite R, and_assign_odd. by destruct ok, (Z.odd rc).
Qed.

(** A recursive [restorecon] returns once the fuel exceeds the length of the
    walk. Its trace relabels every entry handed out, and its result is true
    exactly when no diagnostic was printed and every relabel returned a code
    whose lowest bit is set. *)
Lemma restorecon_recursive_run fuel path preserve w :
  (length (w_walk w path) < fuel)%nat →
  ∃ r w' evs,
    restorecon pol fuel path true preserve w = (Some r, w')
    ∧ w_trace w' = w_trace w ++ evs ∧ visits preserve evs
    ∧ r = forallb Z.odd (return_codes evs) && negb (diagnosed evs).
Proof.
  intros Hfuel. unfold restorecon. simpl. unfold mbind, M_bind.
  destruct (fts_open path w) as [fts w1] eqn:Hopen.
  assert (w_trace w1 = w_trace w ++ [Sys (Fts_open path)]
          ∧ (remaining fts w1 < fuel)%nat) as [T1 Hrem].
  { unfold fts_open, do_call in Hopen.
    destruct (w_fault w _ _); simplify_eq/=; (split; [done|]).
    - unfold remaining. lia.
    - done. }
  destruct (restorecon_loop_run fuel fts preserve true w1 Hrem)
    as (r & w2 & evs & -> & T2 & V & R).
  assert (∃ rc w3, fts_close fts w2 = (rc, w3)
                   ∧ w_trace w3 = w_trace w2 ++ [Sys Fts_close])
    as (rc & w3 & -> & T3).
  { unfold fts_close, do_call, fail_with.
    destruct (w_fault w2 _ _); [by eexists _, _|].
    destruct fts; [by eexists _, _|].
    simpl. destruct (w_fts w2); by eexists _, _. }
  unfold get_errno, error, log.
  destruct (rc =? 0); simpl; eexists _, _, _; (split; [reflexivity|]);
    simpl; rewrite T3, T2, T1, <- !app_assoc; (split; [reflexivity|]);
    simpl; rewrite return_codes_app, diagnosed_app, forallb_app; simpl;
    (split; [apply visits_other; [done|]; apply visits_app; [done|];
             repeat (apply visits_other; [done|]); apply visits_nil|]).
  - rewrite R. simpl. by rewrite !orb_false_r, !andb_true_r.
  - by rewrite orb_true_r, andb_false_r.
Qed.

End Walk.

(** ** The merge *)

(** C6. The merge that [defaultcon] and the recompute mode of
    [restorecon_private] perform, [context_type_set (tcontext,
    context_type_get (scontext))], changes exactly the type of the target
    label [tcontext] to the type of the source label [scontext]: user, role
    and range of the result are those of the target, for all pairs of
    labels. *)
Theorem merge_type_changes_only_type (scontext tcontext : context_t) :
  ctx_type (merge_type scontext tcontext) = ctx_type scontext
  ∧ ctx_user (merge_type scontext tcontext) = ctx_user tcontext
  ∧ ctx_role (merge_type scontext tcontext) = ctx_role tcontext
  ∧ ctx_range (merge_type scontext tcontext) = ctx_range tcontext.
Proof. by destruct scontext, tcontext. Qed.

(** ** [defaultcon] *)

Section Defaultcon.
Variable pol : policy.

Lemma quiet_string_to_security_class name :
  quiet (string_to_security_class pol name).
Proof. by apply quiet_do_call. Qed.

Lemma quiet_mode_to_security_class m : quiet (mode_to_security_class pol m).
Proof.
  unfold mode_to_security_class.
  repeat case_match; try apply quiet_string_to_security_class.
  apply quiet_silent, silent_fail_with.
Qed.

Lemma quiet_security_compute_create scon tcon tclass :
  quiet (security_compute_create pol scon tcon tclass).
Proof. apply quiet_do_call. intros w. by repeat case_match. Qed.

Lemma quiet_setfscreatecon con : quiet (setfscreatecon con).
Proof. by apply quiet_do_call. Qed.

Lemma quiet_computecon path mode : quiet (computecon pol path mode).
Proof.
  unfold computecon.
  apply quiet_bind; [apply quiet_getcon|intros [rc scon]].
  case_match; [apply quiet_ret|].
  apply quiet_bind; [apply quiet_getfilecon|intros [rc' tcon]].
  case_match; [apply quiet_ret|].
  apply quiet_bind; [apply quiet_mode_to_security_class|intros tclass].
  case_match; [apply quiet_ret|apply quiet_security_compute_create].
Qed.

Lemma matchpathcon_trace path mode w :
  w_trace (matchpathcon pol path mode w).2
    = w_trace w ++ [Sys (Matchpathcon path mode)]
  ∧ w_fscreate (matchpathcon pol path mode w).2 = w_fscreate w.
Proof.
  unfold matchpathcon, do_call, fail_with, mret, M_ret.
  destruct (w_fault w _ _); [done|]. by case_match.
Qed.

(** C10. [defaultcon] consults the path-pattern database before anything
    else, and when that lookup fails it returns the failure at once: its
    only call is [matchpathcon] (so neither [getcon], nor [getfilecon] on
    the parent directory, nor [security_compute_create] is made) and the
    creation label of the process is what it was. *)
Theorem defaultcon_pattern_lookup_first path mode w :
  (∃ rest, w_trace (defaultcon pol path mode w).2
           = w_trace w ++ Sys (Matchpathcon path mode) :: rest)
  ∧ ∀ rc scon w1,
      matchpathcon pol path mode w = ((rc, scon), w1) → rc < 0 →
      defaultcon pol path mode w = (rc, w1)
      ∧ w_trace w1 = w_trace w ++ [Sys (Matchpathcon path mode)]
      ∧ w_fscreate w1 = w_fscreate w.
Proof.
  destruct (matchpathcon_trace path mode w) as [T C].
  split.
  - unfold defaultcon, mbind, M_bind.
    destruct (matchpathcon pol path mode w) as [[rc scon] w1]. simpl in T.
    assert (∀ m : M Z, quiet m →
              ∃ rest, w_trace (m w1).2
                      = w_trace w ++ Sys (Matchpathcon path mode) :: rest)
      as Hrest.
    { intros m Hm. destruct (Hm w1) as (_ & _ & _ & cs & T').
      exists (map Sys cs). by rewrite T', T, <- app_assoc. }
    apply Hrest. case_match; [apply quiet_ret|].
    apply quiet_bind; [apply quiet_computecon|intros [rc' tcon]].
    case_match; [apply quiet_ret|].
    repeat case_match; try apply quiet_ret. apply quiet_setfscreatecon.
  - intros rc scon w1 Hm Hrc. rewrite Hm in T, C. simpl in T, C.
    unfold defaultcon, mbind, M_bind. rewrite Hm.
    by destruct (Z.ltb_spec rc 0); [|lia].
Qed.

(** C3, as amended. When the pattern lookup and the transition computation
    both succeed and their labels parse, [defaultcon] builds the label to
    install from the transition label, replacing only its type by the type
    of the pattern label: user, role and range come from the transition
    label, the type from the pattern label. That label is the creation label
    of the process whenever [defaultcon] returns 0, which it does unless
    [setfscreatecon] is refused. *)
Theorem defaultcon_installs_transition_label_with_pattern_type
    path mode w rc1 pattern w1 rc2 transition w2 p t :
  matchpathcon pol path mode w = ((rc1, Some pattern), w1) → 0 ≤ rc1 →
  computecon pol path mode w1 = ((rc2, Some transition), w2) → 0 ≤ rc2 →
  context_parse pol pattern = Some p →
  context_parse pol transition = Some t →
  let label :=
    context_str pol
      (Ctx (ctx_user t) (ctx_role t) (ctx_type p) (ctx_range t)) in
  ∃ rc w',
    defaultcon pol path mode w = (rc, w')
    ∧ (rc = 0 → w_fscreate w' = Some label)
    ∧ (w_fault w2 (length (w_trace w2)) (Setfscreatecon label) = None →
       rc = 0).
Proof.
  intros Hm Hrc1 Hc Hrc2 Hp Ht label.
  unfold defaultcon, mbind, M_bind. rewrite Hm.
  destruct (Z.ltb_spec rc1 0); [lia|]. rewrite Hc.
  destruct (Z.ltb_spec rc2 0); [lia|]. simpl. rewrite Hp, Ht.
  unfold merge_type, context_type_set, context_type_get. fold label.
  unfold setfscreatecon, do_call.
  destruct (w_fault w2 _ _); eexists _, _; (split; [reflexivity|]);
    simpl; split; (done || lia).
Qed.

End Defaultcon.

(** C3, as the specification words it, fails: with the pattern label
    [system_u:object_r:etc_t:s0] and the transition label
    [user_u:role_r:tmp_t:s1], both lookups succeed and [defaultcon] returns
    0, yet the label it installs is not the pattern label with the type of
    the transition label. *)
Lemma defaultcon_pattern_base_counterexample :
  ∃ w1 w2 w' p t,
    matchpathcon Demo.pol "/d/a" S_IFREG Demo.w0
      = ((0, Some Demo.pattern_label), w1)
    ∧ computecon Demo.pol "/d/a" S_IFREG w1
      = ((0, Some Demo.transition_label), w2)
    ∧ context_parse Demo.pol Demo.pattern_label = Some p
    ∧ context_parse Demo.pol Demo.transition_label = Some t
    ∧ defaultcon Demo.pol "/d/a" S_IFREG Demo.w0 = (0, w')
    ∧ w_fscreate w' = Some "user_u:role_r:etc_t:s1"%string
    ∧ w_fscreate w'
      ≠ Some (context_str Demo.pol
                (Ctx (ctx_user p) (ctx_role p) (ctx_type t) (ctx_range p))).
Proof.
  eexists _, _, _, _, _.
  split; [vm_compute; reflexivity|].
  split; [vm_compute; reflexivity|].
  split; [vm_compute; reflexivity|].
  split; [vm_compute; reflexivity|].
  split; [vm_compute; reflexivity|].
  split; [vm_compute; reflexivity|].
  vm_compute. discriminate.
Qed.

Lemma defaultcon_installs_transition_label_with_pattern_type_witness :
  ∃ rc w',
    defaultcon Demo.pol "/d/a" S_IFREG Demo.w0 = (rc, w')
    ∧ (rc = 0 → w_fscreate w' = Some "user_u:role_r:etc_t:s1"%string)
    ∧ (@None Z = None → rc = 0).
Proof.
  exact (defaultcon_installs_transition_label_with_pattern_type Demo.pol
           "/d/a" S_IFREG Demo.w0
           0 Demo.pattern_label (matchpathcon Demo.pol "/d/a" S_IFREG Demo.w0).2
           0 Demo.transition_label
           (computecon Demo.pol "/d/a" S_IFREG
              (matchpathcon Demo.pol "/d/a" S_IFREG Demo.w0).2).2
           (Ctx "system_u" "object_r" "etc_t" "s0")
           (Ctx "user_u" "role_r" "tmp_t" "s1")
           eq_refl ltac:(lia) eq_refl ltac:(lia) eq_refl eq_refl).
Defined.

Lemma defaultcon_pattern_lookup_first_witness :
  defaultcon Demo.no_pattern "/d/a" S_IFREG Demo.w0
    = (-1, (matchpathcon Demo.no_pattern "/d/a" S_IFREG Demo.w0).2)
  ∧ w_trace (matchpathcon Demo.no_pattern "/d/a" S_IFREG Demo.w0).2
    = w_trace Demo.w0 ++ [Sys (Matchpathcon "/d/a" S_IFREG)]
  ∧ w_fscreate (matchpathcon Demo.no_pattern "/d/a" S_IFREG Demo.w0).2
    = w_fscreate Demo.w0.
Proof.
  apply (defaultcon_pattern_lookup_first Demo.no_pattern "/d/a" S_IFREG
           Demo.w0) with (scon := None).
  - vm_compute. reflexivity.
  - lia.
Defined.

(** ** Relabelling one object *)

Section Relabel.
Variable pol : policy.

(** What a preserve-mode relabel does, case by case. *)
Lemma restorecon_private_preserve_run path w :
  ∃ rc w' cs,
    restorecon_private pol path true w = (rc, w')
    ∧ w_trace w' = w_trace w ++ map Sys cs ++ [Relabeled path true rc]
    ∧ (cs = [Getfscreatecon]
       ∨ cs = [Getfscreatecon; Lsetfilecon path (w_fscreate w)])
    ∧ w_fscreate w' = w_fscreate w ∧ w_fds w' = w_fds w
    ∧ (rc = 0 →
       is_Some (w_fscreate w)
       ∧ f_con <$> w_files w' !! path = Some (w_fscreate w)).
Proof.
  unfold restorecon_private, restorecon_private_body, getfscreatecon,
    lsetfilecon, do_call, fail_with, log, set_label, mbind, M_bind, mret,
    M_ret.
  simpl.
  destruct (w_fault w (length (w_trace w)) Getfscreatecon) as [e|]; simpl.
  { eexists _, _, [Getfscreatecon].
    repeat split; simpl; rewrite <- ?app_assoc; auto; intros; lia. }
  destruct (w_fault w _ (Lsetfilecon path (w_fscreate w))) as [e|]; simpl.
  { eexists _, _, [Getfscreatecon; Lsetfilecon path (w_fscreate w)].
    repeat split; simpl; rewrite <- ?app_assoc; auto; intros; lia. }
  destruct (w_fscreate w) as [con|] eqn:Hcon; simpl.
  2:{ eexists _, _, [Getfscreatecon; Lsetfilecon path None].
      repeat split; simpl; rewrite <- ?app_assoc; auto; intros; lia. }
  destruct (w_files w !! path) as [f|] eqn:Hf; simpl.
  2:{ eexists _, _, [Getfscreatecon; Lsetfilecon path (Some con)].
      repeat split; simpl; rewrite <- ?app_assoc; auto; intros; lia. }
  eexists _, _, [Getfscreatecon; Lsetfilecon path (Some con)].
  repeat split; simpl; rewrite <- ?app_assoc; auto.
  by rewrite lookup_alter_eq, Hf.
Qed.

(** C7. A preserve-mode relabel makes no call but [getfscreatecon] and, when
    that succeeds, one [lsetfilecon] of what it read: it queries neither the
    path-pattern database nor the policy-transition function. When it
    returns 0, the label of the object is the creation label of the process,
    the whole string and so all four of its fields. *)
Theorem restorecon_private_preserve_copies_creation_label path w :
  ∃ rc w' cs,
    restorecon_private pol path true w = (rc, w')
    ∧ w_trace w' = w_trace w ++ map Sys cs ++ [Relabeled path true rc]
    ∧ (cs = [Getfscreatecon]
       ∨ cs = [Getfscreatecon; Lsetfilecon path (w_fscreate w)])
    ∧ (∀ p m, Matchpathcon p m ∉ cs)
    ∧ (∀ s t c, Security_compute_create s t c ∉ cs)
    ∧ w_fscreate w' = w_fscreate w
    ∧ (rc = 0 →
       is_Some (w_fscreate w)
       ∧ f_con <$> w_files w' !! path = Some (w_fscreate w)).
Proof.
  destruct (restorecon_private_preserve_run path w)
    as (rc & w' & cs & E & T & Hcs & C & _ & Hok).
  exists rc, w', cs. repeat split; try done.
  - intros p m H. destruct Hcs as [-> | ->];
      repeat (apply elem_of_cons in H as [?|H]; [done|]);
      by apply elem_of_nil in H.
  - intros s t c H. destruct Hcs as [-> | ->];
      repeat (apply elem_of_cons in H as [?|H]; [done|]);
      by apply elem_of_nil in H.
  - by apply Hok.
  - by apply Hok.
Qed.

(** C9. A preserve-mode relabel touches the object through one
    [lsetfilecon] on its path and nothing else: no descriptor is opened, and
    there is no [open], [fstat], [lstat], [fgetfilecon] or [lgetfilecon]
    among its calls. Its return code is the same in any second system with
    the same creation label, the same fate of the two calls, and the object
    present or absent alike, whatever the mode and the label of the object
    there, and whether or not it could be opened. *)
Theorem restorecon_private_preserve_ignores_object path w :
  let run := restorecon_private pol path true w in
  w_fds run.2 = w_fds w
  ∧ (∃ cs,
       w_trace run.2 = w_trace w ++ map Sys cs ++ [Relabeled path true run.1]
       ∧ (cs = [Getfscreatecon]
          ∨ cs = [Getfscreatecon; Lsetfilecon path (w_fscreate w)]))
  ∧ ∀ w2,
      w_fscreate w2 = w_fscreate w →
      length (w_trace w2) = length (w_trace w) →
      (∀ n, w_fault w2 n Getfscreatecon = w_fault w n Getfscreatecon) →
      (∀ n con, w_fault w2 n (Lsetfilecon path con)
                = w_fault w n (Lsetfilecon path con)) →
      (is_Some (w_files w2 !! path) ↔ is_Some (w_files w !! path)) →
      (restorecon_private pol path true w2).1 = run.1.
Proof.
  intros run. subst run.
  destruct (restorecon_private_preserve_run path w)
    as (rc & w' & cs & E & T & Hcs & _ & D & _).
  rewrite E. simpl. split; [done|]. split; [by exists cs|].
  intros w2 Hc Hlen Hg Hs Hex. clear T Hcs D cs.
  replace rc with (restorecon_private pol path true w).1 by (by rewrite E).
  clear E.
  unfold restorecon_private, restorecon_private_body, getfscreatecon,
    lsetfilecon, do_call, fail_with, log, mbind, M_bind, mret, M_ret.
  simpl. rewrite Hg, Hlen, Hc.
  destruct (w_fault w (length (w_trace w)) Getfscreatecon); simpl; [done|].
  rewrite !length_app, Hlen, Hs.
  destruct (w_fault w _ (Lsetfilecon path (w_fscreate w))); simpl; [done|].
  destruct (w_fscreate w); simpl; [|done].
  destruct Hex as [H1 H2].
  destruct (w_files w !! path), (w_files w2 !! path); simpl; try done.
  - by destruct H2 as [? ?].
  - by destruct H1 as [? ?].
Qed.

(** C5. In recompute mode, when the relabel of an object whose label parses
    to user [u], role [r], type [_] and range [g] returns 0, the pattern
    database answered for the path and the mode of the object, and the
    object now carries the label with user [u], role [r], range [g] and the
    type of that answer. *)
Theorem restorecon_private_recompute_keeps_user_role_range
    path w w' f cur c :
  w_files w !! path = Some f → f_con f = Some cur →
  context_parse pol cur = Some c →
  restorecon_private pol path false w = (0, w') →
  ∃ pattern s,
    matchpathcon_db pol path (f_mode f) = Some pattern
    ∧ context_parse pol pattern = Some s
    ∧ w_files w' !! path =
        Some (File (f_mode f)
                (Some (context_str pol
                   (Ctx (ctx_user c) (ctx_role c) (ctx_type s) (ctx_range c))))
                (f_target f)).
Proof.
  intros Hf Hcon Hparse. unfold restorecon_private, mbind, M_bind, log, mret,
    M_ret.
  destruct (restorecon_private_body pol path false w) as [rc w1] eqn:Hbody.
  intros H. simplify_eq/=.
  by eapply restorecon_private_body_success.
Qed.

(** When [open] returns -1, with ELOOP as with any other error, the
    recompute mode goes on to [fstat] on the descriptor -1, which fails, and
    gives up: it makes no path-based call. *)
Lemma restorecon_private_open_failure path w w1 :
  open path w = (-1, w1) →
  ∃ w', restorecon_private_body pol path false w = (-1, w')
        ∧ w_trace w' = w_trace w ++ [Sys (Open path); Sys (Fstat (-1));
                                     Sys (Close (-1))]
        ∧ w_files w' = w_files w.
Proof.
  intros Hopen. unfold restorecon_private_body, mbind, M_bind.
  rewrite Hopen. unfold get_errno at 1. simpl.
  assert (w_trace w1 = w_trace w ++ [Sys (Open path)]
          ∧ w_files w1 = w_files w) as [T1 F1].
  { unfold open, do_call, fail_with in Hopen.
    destruct (w_fault w _ _); simplify_eq/=; [done|].
    destruct (w_files w !! path) as [f|]; simplify_eq/=; [|done].
    by destruct (S_ISLNK (f_mode f)); simplify_eq/=. }
  destruct (fstat_no_descriptor w1) as (w2 & -> & F2 & T2 & _). simpl.
  unfold restorecon_quit, mbind, M_bind.
  destruct (close_no_descriptor w2) as (w3 & -> & F3 & T3).
  eexists. split; [reflexivity|].
  rewrite T3, T2, T1, <- !app_assoc. split; [done|]. congruence.
Qed.

(** Without [recurse], [restorecon] is one [restorecon_private] whose return
    code is converted to [bool]: true for every code but 0. *)
Lemma restorecon_single_object fuel path preserve w :
  restorecon pol fuel path false preserve w
  = (Some (bool_of_int (restorecon_private pol path preserve w).1),
     (restorecon_private pol path preserve w).2).
Proof.
  unfold restorecon, mbind, M_bind, mret, M_ret. simpl.
  by destruct (restorecon_private pol path preserve w).
Qed.

End Relabel.

(** ** Runs on the concrete system *)

Lemma restorecon_private_recompute_keeps_user_role_range_witness :
  ∃ pattern s,
    matchpathcon_db Demo.pol "/d/a" S_IFREG = Some pattern
    ∧ context_parse Demo.pol pattern = Some s
    ∧ w_files (restorecon_private Demo.pol "/d/a" false Demo.w0).2 !! "/d/a"
      = Some (File S_IFREG
                (Some (context_str Demo.pol
                         (Ctx "x_u" "y_r" (ctx_type s) "s0"))) "").
Proof.
  apply (restorecon_private_recompute_keeps_user_role_range Demo.pol "/d/a"
           Demo.w0 (restorecon_private Demo.pol "/d/a" false Demo.w0).2
           (File S_IFREG (Some "x_u:y_r:old_t:s0"%string) "")
           "x_u:y_r:old_t:s0" (Ctx "x_u" "y_r" "old_t" "s0"));
    vm_compute; reflexivity.
Defined.

Lemma restorecon_private_preserve_copies_creation_label_witness :
  f_con <$> w_files (restorecon_private Demo.pol "/d/a" true Demo.w0).2
              !! "/d/a"
  = Some (Some "a_u:b_r:c_t:s3"%string).
Proof.
  destruct (restorecon_private_preserve_copies_creation_label Demo.pol "/d/a"
              Demo.w0) as (rc & w' & cs & E & _ & _ & _ & _ & _ & H).
  assert (rc = 0) as Hrc by (vm_compute in E; congruence).
  rewrite E. exact (proj2 (H Hrc)).
Defined.

Lemma restorecon_private_preserve_ignores_object_witness :
  (restorecon_private Demo.pol "/d/a" true Demo.w2).1
  = (restorecon_private Demo.pol "/d/a" true Demo.w0).1.
Proof.
  apply (restorecon_private_preserve_ignores_object Demo.pol "/d/a" Demo.w0).
  - reflexivity.
  - reflexivity.
  - reflexivity.
  - reflexivity.
  - vm_compute. split; intros _; eexists; reflexivity.
Defined.

(** The scenario of the specification: in [/d], applying the label to
    [/d/a] fails; [/d/b], which the walk hands out next, is relabelled all
    the same. *)
Example restorecon_walk_relabels_after_failing_entry :
  let run := restorecon Demo.pol 6 "/d" true true Demo.w1 in
  return_codes (w_trace run.2) = [0; -1; 0; 0; 0]
  ∧ f_con <$> w_files run.2 !! "/d/a" = Some (Some "x_u:y_r:old_t:s0"%string)
  ∧ f_con <$> w_files run.2 !! "/d/b" = Some (Some "a_u:b_r:c_t:s3"%string).
Proof. vm_compute. repeat split. Qed.

(** C1 (defect of the code). A recursive [restorecon] on the regular file
    [/d/a]: the walk opens, hands out the one entry, ends and closes without
    a diagnostic, and the relabel of the entry returns 0, yet the result is
    false. On the system where the relabel of [/d/a] fails with -1, and
    nothing else differs, the result is true. *)
Theorem restorecon_recursive_inverts_outcome :
  let good := restorecon Demo.pol 2 "/d/a" true true Demo.w0 in
  let bad := restorecon Demo.pol 2 "/d/a" true true Demo.w1 in
  good.1 = Some false
  ∧ w_trace good.2
    = [Sys (Fts_open "/d/a"); Sys Fts_read; Walk_entry "/d/a";
       Sys Getfscreatecon;
       Sys (Lsetfilecon "/d/a" (Some "a_u:b_r:c_t:s3"%string));
       Relabeled "/d/a" true 0; Sys Fts_read; Sys Fts_close]
  ∧ bad.1 = Some true
  ∧ w_trace bad.2
    = [Sys (Fts_open "/d/a"); Sys Fts_read; Walk_entry "/d/a";
       Sys Getfscreatecon;
       Sys (Lsetfilecon "/d/a" (Some "a_u:b_r:c_t:s3"%string));
       Relabeled "/d/a" true (-1); Sys Fts_read; Sys Fts_close].
Proof. vm_compute. repeat split. Qed.

(** C2 (defect of the code). Without [recurse], [restorecon] does make the
    one relabel, but reports its outcome upside down: where
    [restorecon_private] returns 0 on [/d/a] the result is false, and where
    it returns -1 the result is true. *)
Theorem restorecon_single_inverts_outcome :
  let good := restorecon Demo.pol 0 "/d/a" false true Demo.w0 in
  let bad := restorecon Demo.pol 0 "/d/a" false true Demo.w1 in
  (restorecon_private Demo.pol "/d/a" true Demo.w0).1 = 0
  ∧ good.1 = Some false
  ∧ w_trace good.2
    = [Sys Getfscreatecon;
       Sys (Lsetfilecon "/d/a" (Some "a_u:b_r:c_t:s3"%string));
       Relabeled "/d/a" true 0]
  ∧ (restorecon_private Demo.pol "/d/a" true Demo.w1).1 = -1
  ∧ bad.1 = Some true.
Proof. vm_compute. repeat split. Qed.

(** C4 (defect of the code). On the symbolic link [/d/l], [open] returns -1
    with [errno] ELOOP. The recompute mode does not fall back to the path:
    it calls [fstat] on the descriptor -1, gives up with -1, and the label
    of the link is what it was. And where [open] succeeds on the regular
    file [/d/a] with the descriptor 0, the relabel is given up as if [open]
    had failed. *)
Theorem restorecon_private_symlink_no_fallback :
  let opened := open "/d/l" Demo.w0 in
  let run := restorecon_private Demo.pol "/d/l" false Demo.w0 in
  let run0 := restorecon_private Demo.pol "/d/a" false Demo.w3 in
  opened.1 = -1 ∧ w_errno opened.2 = ELOOP
  ∧ run.1 = -1
  ∧ w_trace run.2
    = [Sys (Open "/d/l"); Sys (Fstat (-1)); Sys (Close (-1));
       Relabeled "/d/l" false (-1)]
  ∧ w_files run.2 !! "/d/l" = w_files Demo.w0 !! "/d/l"
  ∧ (open "/d/a" Demo.w3).1 = 0
  ∧ run0.1 = -1
  ∧ w_trace run0.2
    = [Sys (Open "/d/a"); Sys (Close 0); Relabeled "/d/a" false (-1)].
Proof. vm_compute. repeat split. Qed.

(** Lines 167 to 218 of [restorecon_private] are lines 167 to 197 followed
    by the second [context_new] and the label write. *)
Lemma restorecon_private_body_from_line_198 pol path w :
  restorecon_private_body pol path false w
  = (x ← restorecon_private_to_line_198 pol path;
     match x with
     | Left_by_quit fd rc => restorecon_quit fd rc
     | Calls_context_new fd rc scontext tcon =>
         match context_new pol tcon with
         | None => restorecon_quit fd rc
         | Some tcontext =>
             let con := context_str pol (merge_type scontext tcontext) in
             rc ← (if negb (fd =? 0) then fsetfilecon fd con
                   else lsetfilecon path (Some con));
             restorecon_quit fd rc
         end
     end) w.
Proof.
  unfold restorecon_private_body, restorecon_private_to_line_198, mbind,
    M_bind, mret, M_ret.
  destruct (open path w) as [fd w1].
  destruct (get_errno w1) as [errno w1'].
  destruct ((fd =? 0) && negb (errno =? ELOOP)); [done|].
  destruct ((if negb (fd =? 0) then fstat fd else lstat path) w1')
    as [[rc m] w2].
  destruct (rc <? 0); [done|].
  destruct (matchpathcon pol path m w2) as [[rc' scon] w3].
  destruct (rc' <? 0); [done|].
  destruct (context_new pol scon); [|done].
  destruct ((if negb (fd =? 0) then fgetfilecon fd else lgetfilecon path) w3)
    as [[rc'' tcon] w4].
  by destruct (rc'' =? 0).
Qed.

(** The test after the label read is [if (!rc)], where the tests before it
    are [rc < 0]: a read that failed with -1 is not caught, and line 198
    calls [context_new] on the NULL that [tcon] still is. Whenever line 198
    is reached, either the read failed and [tcon] is NULL, or the read
    returned a positive length and a label. *)
Lemma restorecon_private_failed_read_reaches_line_198
    pol path w fd rc scontext tcon w1 :
  restorecon_private_to_line_198 pol path w
    = (Calls_context_new fd rc scontext tcon, w1) →
  rc = -1 ∧ tcon = None ∨ 0 < rc ∧ is_Some tcon.
Proof.
  unfold restorecon_private_to_line_198, mbind, M_bind, mret, M_ret.
  destruct (open path w) as [fd' w2].
  destruct (get_errno w2) as [errno w2'].
  destruct ((fd' =? 0) && negb (errno =? ELOOP)); [by intros [=]|].
  destruct ((if negb (fd' =? 0) then fstat fd' else lstat path) w2')
    as [[rc1 m] w3].
  destruct (rc1 <? 0); [by intros [=]|].
  destruct (matchpathcon pol path m w3) as [[rc2 scon] w4].
  destruct (rc2 <? 0); [by intros [=]|].
  destruct (context_new pol scon); [|by intros [=]].
  destruct ((if negb (fd' =? 0) then fgetfilecon fd' else lgetfilecon path) w4)
    as [[rc3 tcon'] w5] eqn:Hread.
  destruct (rc3 =? 0); intros [= <- <- <- <- <-].
  assert (rc3 = -1 ∧ tcon' = None
          ∨ ∃ l, tcon' = Some l ∧ rc3 = Z.of_nat (String.length l) + 1)
    as [?|(lbl & -> & ->)]; [|by left|right; split; [lia|done]].
  destruct (negb (fd' =? 0));
    unfold fgetfilecon, lgetfilecon, do_call, read_label, fail_with, mret,
      M_ret in Hread;
    destruct (w_fault w4 _ _); simplify_eq/=; auto;
    match type of Hread with
    | context [match ?o with inl _ => _ | inr _ => _ end] => destruct o as [?|f]
    end; simplify_eq/=; auto;
    destruct (f_con f) as [lbl|]; simplify_eq/=; eauto.
Qed.

(** On [/d/a] without a label, the label read fails with ENODATA and line
    198 is reached with NULL. *)
Example restorecon_private_unlabelled_reaches_line_198 :
  (restorecon_private_to_line_198 Demo.pol "/d/a" Demo.w8).1
  = Calls_context_new 3 (-1) (Ctx "system_u" "object_r" "etc_t" "s0") None
  ∧ w_errno (restorecon_private_to_line_198 Demo.pol "/d/a" Demo.w8).2
    = ENODATA.
Proof. vm_compute. by split. Qed.

(** C8 (defect of the code). A recursive [restorecon] over [/d] when every
    label write is refused: the walk does go on, all five entries are handed
    out and relabelled in turn, and each relabel returns -1; yet none of
    the failures reaches the aggregate, no diagnostic is printed and the
    result is true. And with the one failure of [/d/a] in the middle of the
    walk, the result is the same as without it. *)
Theorem restorecon_failures_do_not_reach_aggregate :
  let run := restorecon Demo.pol 6 "/d" true true Demo.w7 in
  let evs := w_trace run.2 in
  entries evs = ["/d"; "/d/a"; "/d/b"; "/d/l"; "/d"]%string
  ∧ relabeled_paths evs = entries evs
  ∧ return_codes evs = [-1; -1; -1; -1; -1]
  ∧ diagnosed evs = false
  ∧ run.1 = Some true
  ∧ return_codes (w_trace (restorecon Demo.pol 6 "/d" true true Demo.w1).2)
    = [0; -1; 0; 0; 0]
  ∧ (restorecon Demo.pol 6 "/d" true true Demo.w1).1
    = (restorecon Demo.pol 6 "/d" true true Demo.w0).1.
Proof. vm_compute. repeat split. Qed.

(** * Further properties *)

(** ** Programs that keep a relation *)

Section Keeps.
Variable R : world → world → Prop.
Hypothesis R_refl : ∀ w, R w w.
Hypothesis R_trans : ∀ w1 w2 w3, R w1 w2 → R w2 w3 → R w1 w3.
Hypothesis R_errno : ∀ w e, R w (with_errno e w).
Hypothesis R_trace : ∀ w t, R w (with_trace t w).

Lemma keeps_ret {A : Type} (a : A) : keeps R (mret a).
Proof. intros w. apply R_refl. Qed.

Lemma keeps_bind {A B : Type} (m : M A) (f : A → M B) :
  keeps R m → (∀ a, keeps R (f a)) → keeps R (m ≫= f).
Proof.
  intros Hm Hf w. unfold mbind, M_bind.
  specialize (Hm w). destruct (m w) as [a w1]. simpl in Hm.
  eapply R_trans; [exact Hm | apply Hf].
Qed.

Lemma keeps_fail_with {A : Type} (e : Z) (r : A) : keeps R (fail_with e r).
Proof. intros w. apply R_errno. Qed.

Lemma keeps_get_errno : keeps R get_errno.
Proof. intros w. apply R_refl. Qed.

Lemma keeps_log e : keeps R (log e).
Proof. intros w. apply R_trace. Qed.

Lemma keeps_do_call {A : Type} (c : call) (failed : A) (body : M A) :
  keeps R body → keeps R (do_call c failed body).
Proof.
  intros Hb w. unfold do_call.
  destruct (w_fault w (length (w_trace w)) c) as [e|]; simpl.
  - eapply R_trans; [apply R_trace | apply R_errno].
  - eapply R_trans; [apply R_trace | apply Hb].
Qed.

Lemma keeps_read_label o : keeps R (read_label o).
Proof.
  unfold read_label. repeat case_match;
    (apply keeps_fail_with || apply keeps_ret).
Qed.

Lemma keeps_stat_result o : keeps R (stat_result o).
Proof.
  unfold stat_result. case_match; (apply keeps_fail_with || apply keeps_ret).
Qed.

Variable pol : policy.

Lemma keeps_matchpathcon path mode : keeps R (matchpathcon pol path mode).
Proof.
  apply keeps_do_call. case_match; (apply keeps_fail_with || apply keeps_ret).
Qed.

Lemma keeps_getcon : keeps R getcon.
Proof. apply keeps_do_call. intros w. apply R_refl. Qed.

Lemma keeps_getfilecon path : keeps R (getfilecon path).
Proof. apply keeps_do_call. intros w. apply keeps_read_label. Qed.

Lemma keeps_lgetfilecon path : keeps R (lgetfilecon path).
Proof. apply keeps_do_call. intros w. apply keeps_read_label. Qed.

Lemma keeps_fgetfilecon fd : keeps R (fgetfilecon fd).
Proof. apply keeps_do_call. intros w. apply keeps_read_label. Qed.

Lemma keeps_fstat fd : keeps R (fstat fd).
Proof. apply keeps_do_call. intros w. apply keeps_stat_result. Qed.

Lemma keeps_lstat path : keeps R (lstat path).
Proof. apply keeps_do_call. intros w. apply keeps_stat_result. Qed.

Lemma keeps_getfscreatecon : keeps R getfscreatecon.
Proof. apply keeps_do_call. intros w. apply R_refl. Qed.

Lemma keeps_string_to_security_class name :
  keeps R (string_to_security_class pol name).
Proof. apply keeps_do_call, keeps_ret. Qed.

Lemma keeps_mode_to_security_class m : keeps R (mode_to_security_class pol m).
Proof.
  unfold mode_to_security_class.
  repeat case_match; try apply keeps_string_to_security_class.
  apply keeps_fail_with.
Qed.

Lemma keeps_security_compute_create scon tcon tclass :
  keeps R (security_compute_create pol scon tcon tclass).
Proof.
  apply keeps_do_call.
  repeat case_match; (apply keeps_fail_with || apply keeps_ret).
Qed.

Lemma keeps_computecon path mode : keeps R (computecon pol path mode).
Proof.
  unfold computecon.
  apply keeps_bind; [apply keeps_getcon|intros [rc scon]].
  case_match; [apply keeps_ret|].
  apply keeps_bind; [apply keeps_getfilecon|intros [rc' tcon]].
  case_match; [apply keeps_ret|].
  apply keeps_bind; [apply keeps_mode_to_security_class|intros tclass].
  case_match; [apply keeps_ret|apply keeps_security_compute_create].
Qed.

End Keeps.

Lemma same_store_refl w : same_store w w.
Proof. by repeat split. Qed.

Lemma same_store_trans w1 w2 w3 :
  same_store w1 w2 → same_store w2 w3 → same_store w1 w3.
Proof.
  unfold same_store. intros (?&?&?&?&?&?) (?&?&?&?&?&?).
  repeat split; congruence.
Qed.

Lemma same_store_errno w e : same_store w (with_errno e w).
Proof. by repeat split. Qed.

Lemma same_store_trace w t : same_store w (with_trace t w).
Proof. by repeat split. Qed.

Lemma labels_only_refl w : labels_only w w.
Proof. by repeat split. Qed.

Lemma labels_only_trans w1 w2 w3 :
  labels_only w1 w2 → labels_only w2 w3 → labels_only w1 w3.
Proof.
  unfold labels_only. intros (?&?&?&Ha) (?&?&?&Hb).
  repeat split; try congruence.
Qed.

Lemma labels_only_errno w e : labels_only w (with_errno e w).
Proof. by repeat split. Qed.

Lemma labels_only_trace w t : labels_only w (with_trace t w).
Proof. by repeat split. Qed.

Lemma same_store_labels_only w w' : same_store w w' → labels_only w w'.
Proof.
  intros (F&_&C&_&G&K). repeat split; try done. intros q. by rewrite F.
Qed.

(** ** [mode_to_security_class] *)

Section Class.
Variable pol : policy.

Lemma mode_to_security_class_table m bits name :
  In (bits, name) class_table → Z.land m S_IFMT = bits →
  mode_to_security_class pol m = string_to_security_class pol name.
Proof.
  intros Hin Hbits. unfold mode_to_security_class, S_ISREG, S_ISDIR, S_ISCHR,
    S_ISBLK, S_ISFIFO, S_ISLNK, S_ISSOCK.
  rewrite Hbits. simpl in Hin.
  repeat (destruct Hin as [[= <- <-]|Hin]; [reflexivity|]).
  destruct Hin.
Qed.

(** X1. The class that [mode_to_security_class] asks for is decided by the
    file-type bits alone: for each of the seven types of the table, whatever
    the permission bits, the function is the one
    [string_to_security_class] call for the name of that type. *)
Theorem mode_to_security_class_by_type_bits m bits name :
  In (bits, name) class_table → Z.land m S_IFMT = bits →
  mode_to_security_class pol m = string_to_security_class pol name.
Proof. apply mode_to_security_class_table. Qed.

(** X2. A mode whose file-type bits are none of the seven types costs no
    call: [mode_to_security_class] returns 0, sets [errno] to EINVAL, and
    leaves the trace and the rest of the system as they were. *)
Theorem mode_to_security_class_unrecognized m w :
  (∀ name, ¬ In (Z.land m S_IFMT, name) class_table) →
  mode_to_security_class pol m w = (0, with_errno EINVAL w).
Proof.
  intros Hnot. unfold mode_to_security_class, S_ISREG, S_ISDIR, S_ISCHR,
    S_ISBLK, S_ISFIFO, S_ISLNK, S_ISSOCK.
  repeat (case_match;
          [exfalso; match goal with
                    | H : (_ =? _) = true |- _ =>
                        apply Z.eqb_eq in H; eapply Hnot; rewrite H;
                        simpl; eauto 10
                    end|]).
  reflexivity.
Qed.

End Class.

(** ** [computecon] and [defaultcon] *)

Section Compute.
Variable pol : policy.

Lemma mode_to_security_class_cases m :
  (∃ name, In (Z.land m S_IFMT, name) class_table
           ∧ mode_to_security_class pol m = string_to_security_class pol name)
  ∨ ((∀ name, ¬ In (Z.land m S_IFMT, name) class_table)
     ∧ mode_to_security_class pol m = fail_with EINVAL 0).
Proof.
  destruct (decide (Exists (λ e, e.1 = Z.land m S_IFMT) class_table))
    as [Hex|Hno].
  - left. apply Exists_exists in Hex as ([bits name] & Hin & Hb).
    simpl in Hb. subst bits. apply list_elem_of_In in Hin. exists name.
    split; [done|]. by eapply mode_to_security_class_table.
  - right.
    assert (∀ name, ¬ In (Z.land m S_IFMT, name) class_table) as Hnot.
    { intros name Hin. apply Hno, Exists_exists.
      exists (Z.land m S_IFMT, name). split; [|done].
      by apply list_elem_of_In. }
    split; [done|].
    unfold mode_to_security_class, S_ISREG, S_ISDIR, S_ISCHR, S_ISBLK,
      S_ISFIFO, S_ISLNK, S_ISSOCK.
    repeat (case_match;
            [exfalso; match goal with
                      | H : (_ =? _) = true |- _ =>
                          apply Z.eqb_eq in H; eapply Hnot; rewrite H;
                          simpl; eauto 10
                      end|]).
    reflexivity.
Qed.

Lemma same_store_computecon path mode w :
  same_store w (computecon pol path mode w).2.
Proof.
  apply (keeps_computecon same_store same_store_refl same_store_trans
           same_store_errno same_store_trace).
Qed.

Lemma same_store_matchpathcon path mode w :
  same_store w (matchpathcon pol path mode w).2.
Proof.
  apply (keeps_matchpathcon same_store same_store_refl same_store_trans
           same_store_errno same_store_trace).
Qed.

Lemma getcon_inv w rc scon w1 :
  getcon w = ((rc, scon), w1) →
  same_store w w1 ∧ (rc = -1 ∨ rc = 0 ∧ scon = Some (w_con w)).
Proof.
  unfold getcon, do_call. destruct (w_fault w _ _); intros [= <- <- <-].
  - split; [by repeat split|by left].
  - split; [by repeat split|by right].
Qed.

Lemma getfilecon_follow_inv path w rc tcon w1 :
  getfilecon path w = ((rc, tcon), w1) →
  same_store w w1
  ∧ (rc = -1
     ∨ 0 < rc ∧ ∃ dir c, follow (w_files w) 40 path = inr dir
                         ∧ f_con dir = Some c ∧ tcon = Some c).
Proof.
  unfold getfilecon, do_call, read_label, fail_with, mret, M_ret.
  destruct (w_fault w _ _).
  { intros [= <- <- <-]. split; [by repeat split|by left]. }
  change (w_files (with_trace (w_trace w ++ [Sys (Getfilecon path)]) w))
    with (w_files w).
  destruct (follow (w_files w) 40 path) as [e|dir].
  { intros [= <- <- <-]. split; [by repeat split|by left]. }
  destruct (f_con dir) as [c|] eqn:Hc; intros [= <- <- <-].
  - split; [by repeat split|]. right. split; [lia|]. by exists dir, c.
  - split; [by repeat split|by left].
Qed.

(** X3. When [computecon] hands back a label, it is the answer of the
    policy for the label of the process, the label of the parent directory
    of [path] (the directory [dirname (path)], symbolic links followed, not
    the object itself) and the class of [mode]; the return code is 0. *)
Theorem computecon_transition_from_parent path mode w rc c w' :
  computecon pol path mode w = ((rc, Some c), w') →
  rc = 0
  ∧ ∃ dir tcon name,
      follow (w_files w) 40 (dirname path) = inr dir
      ∧ f_con dir = Some tcon
      ∧ In (Z.land mode S_IFMT, name) class_table
      ∧ class_db pol name ≠ 0
      ∧ compute_create_db pol (w_con w) tcon (class_db pol name) = Some c.
Proof.
  unfold computecon, mbind, M_bind.
  destruct (getcon w) as [[rc1 scon] w1] eqn:H1.
  apply getcon_inv in H1 as [S1 H1].
  destruct H1 as [->|[-> ->]]; [by intros [=]|].
  change (0 <? 0) with false. cbv beta iota.
  destruct (getfilecon (dirname path) w1) as [[rc2 tcon] w2] eqn:H2.
  apply getfilecon_follow_inv in H2 as [S2 H2].
  destruct H2 as [->|(Hrc2 & dir & tc & Hdir & Htc & ->)]; [by intros [=]|].
  destruct (Z.ltb_spec rc2 0); [lia|]. cbv beta iota.
  destruct S1 as (F1 & _). rewrite F1 in Hdir.
  destruct (mode_to_security_class_cases mode) as [(name & Hin & ->)|[_ ->]];
    [|by intros [=]].
  unfold string_to_security_class, do_call at 1, mret, M_ret.
  destruct (w_fault w2 _ _); [by intros [=]|].
  destruct (Z.eqb_spec (class_db pol name) 0) as [|Hne]; [by intros [=]|].
  unfold security_compute_create, do_call, fail_with, mret, M_ret.
  destruct (w_fault _ _ _); [by intros [=]|].
  destruct (compute_create_db pol (w_con w) tc (class_db pol name))
    as [c'|] eqn:Hc; [|by intros [=]].
  intros [= <- <- <-]. split; [done|]. by exists dir, tc, name.
Qed.

(** The return code of [security_compute_create] and what it stores. *)
Lemma security_compute_create_result scon tcon tclass w :
  let r := (security_compute_create pol scon tcon tclass w).1 in
  r.1 = 0 ∧ is_Some r.2 ∨ r = (-1, None).
Proof.
  unfold security_compute_create, do_call, fail_with, mret, M_ret.
  destruct (w_fault w _ _); simpl; [by right|].
  repeat case_match; simpl; eauto.
Qed.

Lemma computecon_outcome path mode w :
  let run := computecon pol path mode w in
  same_store w run.2
  ∧ (run.1.1 = 0 ∧ is_Some run.1.2 ∨ run.1 = (-1, None)).
Proof.
  split; [apply same_store_computecon|].
  unfold computecon, mbind, M_bind.
  destruct (getcon w) as [[rc scon] w1].
  destruct (rc <? 0); [by right|].
  destruct (getfilecon (dirname path) w1) as [[rc' tcon] w2].
  destruct (rc' <? 0); [by right|].
  destruct (mode_to_security_class pol mode w2) as [tclass w3].
  destruct (tclass =? 0); [by right|].
  apply security_compute_create_result.
Qed.

(** X4. [computecon] is a query that gives all or nothing: it changes
    nothing in the system but [errno] and the trace, and it returns either 0
    together with a label, or -1 having stored no label. *)
Theorem computecon_all_or_nothing path mode w :
  let run := computecon pol path mode w in
  same_store w run.2
  ∧ (run.1.1 = 0 ∧ is_Some run.1.2 ∨ run.1 = (-1, None)).
Proof. apply computecon_outcome. Qed.

Lemma matchpathcon_result path mode w :
  let r := (matchpathcon pol path mode w).1 in
  r.1 = 0 ∧ is_Some r.2 ∨ r = (-1, None).
Proof.
  unfold matchpathcon, do_call, fail_with, mret, M_ret.
  destruct (w_fault w _ _); simpl; [by right|].
  case_match; simpl; eauto.
Qed.

(** X5. [defaultcon] returns 0 or -1 and never touches the files or the
    descriptors. When it returns -1, whichever step failed, the creation
    label of the process is what it was; when it returns 0, the creation
    label is a label printed by [context_str]. *)
Theorem defaultcon_failure_keeps_creation_label path mode w :
  let run := defaultcon pol path mode w in
  w_files run.2 = w_files w ∧ w_fds run.2 = w_fds w
  ∧ (run.1 = -1 ∧ w_fscreate run.2 = w_fscreate w
     ∨ run.1 = 0 ∧ ∃ c, w_fscreate run.2 = Some (context_str pol c)).
Proof.
  unfold defaultcon, mbind, M_bind.
  pose proof (same_store_matchpathcon path mode w) as S1.
  pose proof (matchpathcon_result path mode w) as R1.
  destruct (matchpathcon pol path mode w) as [[rc scon] w1].
  simpl in S1, R1. destruct S1 as (F1 & D1 & C1 & _).
  assert (∀ w2, same_store w1 w2 →
            w_files w2 = w_files w ∧ w_fds w2 = w_fds w
            ∧ w_fscreate w2 = w_fscreate w) as Hsame.
  { intros w2 (F2 & D2 & C2 & _). repeat split; congruence. }
  destruct R1 as [[-> _]|[= -> ->]]; simpl.
  2:{ destruct (Hsame w1 (same_store_refl w1)) as (? & ? & ?). eauto. }
  pose proof (computecon_outcome path mode w1) as [S2 R2].
  destruct (computecon pol path mode w1) as [[rc' tcon] w2].
  simpl in S2, R2. destruct (Hsame w2 S2) as (F2 & D2 & C2).
  destruct R2 as [[-> _]|[= -> ->]]; simpl; [|by eauto].
  destruct (context_new pol scon) as [scontext|]; simpl; [|by eauto].
  destruct (context_new pol tcon) as [tcontext|]; simpl; [|by eauto].
  unfold setfscreatecon, do_call.
  destruct (w_fault w2 _ _); simpl; [by eauto|].
  repeat split; try done. right. split; [done|]. by eexists.
Qed.

(** X6. With a mode of no recognised file type, [defaultcon] always fails:
    it returns -1 and installs nothing, whatever the pattern database and
    the policy would answer. *)
Theorem defaultcon_unrecognized_mode_fails path mode w :
  (∀ name, ¬ In (Z.land mode S_IFMT, name) class_table) →
  (defaultcon pol path mode w).1 = -1
  ∧ same_store w (defaultcon pol path mode w).2.
Proof.
  intros Hnot. unfold defaultcon, mbind, M_bind.
  pose proof (same_store_matchpathcon path mode w) as S1.
  pose proof (matchpathcon_result path mode w) as R1.
  destruct (matchpathcon pol path mode w) as [[rc scon] w1].
  simpl in S1, R1.
  destruct R1 as [[-> _]|[= -> ->]]; simpl; [|done].
  pose proof (same_store_computecon path mode w1) as S2.
  assert ((computecon pol path mode w1).1 = (-1, None)) as R2.
  { unfold computecon, mbind, M_bind.
    destruct (getcon w1) as [[rc scon'] w2].
    destruct (rc <? 0); [done|].
    destruct (getfilecon (dirname path) w2) as [[rc' tcon] w3].
    destruct (rc' <? 0); [done|].
    destruct (mode_to_security_class_cases mode)
      as [(name & Hin & _)|[_ ->]]; [by destruct (Hnot name)|].
    done. }
  destruct (computecon pol path mode w1) as [[rc' tcon] w2].
  simpl in S2, R2. injection R2 as -> ->. simpl.
  split; [done|]. by eapply same_store_trans.
Qed.

End Compute.

(** ** One relabel, every path through it *)

Section Outcome.
Variable pol : policy.

(** [lowest_free] is free: a table of [n] descriptors cannot hold all of
    0, ..., n. *)
Lemma lowest_free_fresh (fds : gmap Z string) : fds !! lowest_free fds = None.
Proof.
  unfold lowest_free.
  destruct (find _ _) as [k|] eqn:Hfind.
  - apply find_some in Hfind as [_ Hk]. by apply bool_decide_eq_true in Hk.
  - exfalso.
    pose proof (find_none _ _ Hfind) as Hall. simpl in Hall.
    set (n := size fds) in *.
    assert (list_to_set (Z.of_nat <$> seq 0 (S n)) ⊆ dom fds) as Hsub.
    { intros z [k [-> Hk]]%elem_of_list_to_set%list_elem_of_fmap.
      apply list_elem_of_In in Hk. specialize (Hall k Hk).
      apply bool_decide_eq_false in Hall. apply elem_of_dom.
      by destruct (fds !! Z.of_nat k). }
    apply subseteq_size in Hsub.
    rewrite size_list_to_set, length_fmap, length_seq, size_dom in Hsub.
    + subst n. lia.
    + apply NoDup_fmap_2; [apply _|apply NoDup_seq].
Qed.

Lemma open_run path w :
  ∃ fd w1,
    open path w = (fd, w1)
    ∧ w_files w1 = w_files w ∧ w_fscreate w1 = w_fscreate w
    ∧ w_fts w1 = w_fts w ∧ w_fault w1 = w_fault w ∧ w_walk w1 = w_walk w
    ∧ (fd = -1 ∨ 0 ≤ fd ∧ fd_path w1 fd = Some path)
    ∧ drop_fd fd (w_fds w1) = w_fds w.
Proof.
  unfold open, do_call, fail_with.
  destruct (w_fault w _ _); [by eexists _, _; repeat split; eauto|].
  simpl. destruct (w_files w !! path) as [f|];
    [|by eexists _, _; repeat split; eauto].
  destruct (S_ISLNK (f_mode f)); [by eexists _, _; repeat split; eauto|].
  pose proof (lowest_free_nonneg (w_fds w)) as Hfd.
  eexists _, _. repeat split; simpl.
  - right. split; [done|]. unfold fd_path. simpl.
    destruct (Z.ltb_spec (lowest_free (w_fds w)) 0); [lia|].
    by rewrite lookup_insert_eq.
  - unfold drop_fd. destruct (Z.ltb_spec (lowest_free (w_fds w)) 0); [lia|].
    apply delete_insert_id, lowest_free_fresh.
Qed.

(** The label [quit]: nothing changes but the descriptor table, which
    loses [fd] unless [close] is refused. *)
Lemma restorecon_quit_run fd rc w :
  ∃ w',
    restorecon_quit fd rc w = (rc, w')
    ∧ w_files w' = w_files w ∧ w_fscreate w' = w_fscreate w
    ∧ w_fts w' = w_fts w ∧ w_fault w' = w_fault w ∧ w_walk w' = w_walk w
    ∧ (w_fault w (length (w_trace w)) (Close fd) = None →
       w_fds w' = drop_fd fd (w_fds w)).
Proof.
  unfold restorecon_quit, close, do_call, fail_with, mbind, M_bind, mret,
    M_ret.
  destruct (w_fault w _ _); simpl; [by eexists; repeat split|].
  unfold fd_path, drop_fd. simpl. destruct (fd <? 0); simpl.
  { by eexists; repeat split. }
  destruct (w_fds w !! fd) eqn:Hfd; simpl; eexists; repeat split; try done.
  intros _. simpl. by rewrite delete_id.
Qed.

Lemma same_store_steady w w' : same_store w w' → steady w w'.
Proof. intros (?&?&?&?&?&?). by repeat split. Qed.

Lemma steady_trans w1 w2 w3 : steady w1 w2 → steady w2 w3 → steady w1 w3.
Proof.
  unfold steady. intros (?&?&?&?&?) (?&?&?&?&?). repeat split; congruence.
Qed.

Lemma fd_path_steady w w' fd : steady w w' → fd_path w' fd = fd_path w fd.
Proof. intros (D & _). unfold fd_path. by rewrite D. Qed.

Lemma stat_steady path fd w :
  steady w ((if negb (fd =? 0) then fstat fd else lstat path) w).2.
Proof.
  apply same_store_steady. destruct (negb (fd =? 0)).
  - apply (keeps_fstat same_store same_store_refl same_store_trans
             same_store_errno same_store_trace).
  - apply (keeps_lstat same_store same_store_refl same_store_trans
             same_store_errno same_store_trace).
Qed.

Lemma getfilecon_steady path fd w :
  steady w ((if negb (fd =? 0) then fgetfilecon fd else lgetfilecon path) w).2.
Proof.
  apply same_store_steady. destruct (negb (fd =? 0)).
  - apply (keeps_fgetfilecon same_store same_store_refl same_store_trans
             same_store_errno same_store_trace).
  - apply (keeps_lgetfilecon same_store same_store_refl same_store_trans
             same_store_errno same_store_trace).
Qed.

(** The label read, with the code it returns. *)
Lemma getfilecon_code path fd w rc tcon w1 :
  (if negb (fd =? 0) then fgetfilecon fd else lgetfilecon path) w
    = ((rc, tcon), w1) →
  (fd ≠ 0 → fd_path w fd = Some path) →
  rc = -1 ∧ tcon = None
  ∨ ∃ f cur, w_files w !! path = Some f ∧ f_con f = Some cur
             ∧ tcon = Some cur ∧ rc = Z.of_nat (String.length cur) + 1.
Proof.
  intros H Hfd.
  destruct (Z.eqb_spec fd 0) as [->|Hne]; simpl in H;
    unfold fgetfilecon, lgetfilecon, do_call, read_label, by_fd, no_follow,
      fail_with, mret, M_ret in H;
    destruct (w_fault w _ _); simplify_eq/=; try by auto.
  - destruct (w_files w !! path) as [f|]; simplify_eq/=; [|by auto].
    destruct (f_con f) as [c|] eqn:Hc; simplify_eq/=; [|by auto].
    right. by exists f, c.
  - unfold fd_path in *. simpl in *. rewrite (Hfd Hne) in H.
    destruct (w_files w !! path) as [f|]; simplify_eq/=; [|by auto].
    destruct (f_con f) as [c|] eqn:Hc; simplify_eq/=; [|by auto].
    right. by exists f, c.
Qed.

(** The label write, with what it does to the file table. *)
Lemma setfilecon_run path fd con w :
  (fd ≠ 0 → fd_path w fd = Some path) →
  ∃ rc w1,
    (if negb (fd =? 0) then fsetfilecon fd con
     else lsetfilecon path (Some con)) w = (rc, w1)
    ∧ steady w w1
    ∧ (rc = -1 ∧ w_files w1 = w_files w
       ∨ rc = 0 ∧ is_Some (w_files w !! path)
         ∧ w_files w1 = alter (relabel_file con) path (w_files w)).
Proof.
  intros Hfd.
  destruct (Z.eqb_spec fd 0) as [->|Hne]; simpl;
    unfold fsetfilecon, lsetfilecon, do_call, fail_with, set_label;
    (destruct (w_fault w _ _); [by eexists _, _; repeat split; eauto|]).
  - simpl. destruct (w_files w !! path) as [f|] eqn:Hf;
      eexists _, _; repeat split; eauto.
  - unfold fd_path in *. simpl in *. rewrite (Hfd Hne).
    destruct (w_files w !! path) as [f|] eqn:Hf;
      eexists _, _; repeat split; eauto.
Qed.

(** Leaving through [quit] from a system [wq] that is steady since [open]. *)
Lemma quit_finish path preserve w fd rc w1 wq :
  w_fscreate w1 = w_fscreate w → w_fts w1 = w_fts w →
  w_fault w1 = w_fault w → w_walk w1 = w_walk w →
  drop_fd fd (w_fds w1) = w_fds w →
  steady w1 wq →
  (∀ w', w_files w' = w_files wq → relabel_outcome pol path preserve w rc w') →
  ∃ rc' w',
    restorecon_quit fd rc wq = (rc', w')
    ∧ relabel_frame w w' ∧ relabel_outcome pol path preserve w rc' w'.
Proof.
  intros C1 T1 G1 K1 D1 (Dq & Cq & Tq & Gq & Kq) Hout.
  destruct (restorecon_quit_run fd rc wq) as (w' & -> & F & C & T & G & K & D).
  exists rc, w'. split; [done|]. split; [|by apply Hout].
  repeat split; try congruence.
  intros Hclose. rewrite D, Dq, D1; [done|].
  rewrite Gq, G1. apply Hclose.
Qed.

(** Every run of [restorecon_private_body], in either mode. *)
Lemma restorecon_private_body_outcome path preserve w :
  ∃ rc w',
    restorecon_private_body pol path preserve w = (rc, w')
    ∧ relabel_frame w w' ∧ relabel_outcome pol path preserve w rc w'.
Proof.
  destruct preserve.
  { unfold restorecon_private_body, getfscreatecon, lsetfilecon, do_call,
      fail_with, set_label, mbind, M_bind, mret, M_ret, relabel_frame,
      relabel_outcome.
    simpl.
    destruct (w_fault w (length (w_trace w)) Getfscreatecon); simpl.
    { eexists _, _. repeat split; auto. }
    destruct (w_fault w _ (Lsetfilecon path (w_fscreate w))); simpl.
    { eexists _, _. repeat split; auto. }
    destruct (w_fscreate w) as [con|] eqn:Hcon; simpl.
    2:{ eexists _, _. repeat split; auto. }
    destruct (w_files w !! path) as [f|] eqn:Hf; simpl.
    2:{ eexists _, _. repeat split; auto. }
    eexists _, _. repeat split; auto. left. repeat split; eauto. }
  unfold restorecon_private_body, mbind, M_bind.
  destruct (open_run path w)
    as (fd & w1 & -> & F1 & C1 & T1 & G1 & K1 & Hfd & D1).
  unfold get_errno at 1.
  assert (∀ rc wq, steady w1 wq →
            (∀ w', w_files w' = w_files wq →
                   relabel_outcome pol path false w rc w') →
            ∃ rc' w', restorecon_quit fd rc wq = (rc', w')
                      ∧ relabel_frame w w'
                      ∧ relabel_outcome pol path false w rc' w') as Hquit.
  { intros rc wq. by apply quit_finish. }
  assert (∀ wq w', steady w1 wq → w_files wq = w_files w →
            w_files w' = w_files wq →
            relabel_outcome pol path false w (-1) w') as Hfail.
  { intros wq w' _ Fq F'. right. left. split; [done|congruence]. }
  assert (steady w1 w1) as S1 by (by repeat split).
  destruct ((fd =? 0) && negb (w_errno w1 =? ELOOP)).
  { apply Hquit; [done|]. intros w'. by apply (Hfail w1). }
  destruct Hfd as [->|[Hfd0 Hfd]].
  { simpl. destruct (fstat_no_descriptor w1) as (w2 & E2 & F2 & _ & G2).
    pose proof (stat_steady path (-1) w1) as S2. simpl in S2.
    rewrite E2 in *. simpl in *.
    apply Hquit; [done|]. intros w'. apply (Hfail w2); congruence. }
  pose proof (stat_steady path fd w1) as S2.
  destruct ((if negb (fd =? 0) then fstat fd else lstat path) w1)
    as [[rc m] w2] eqn:Hstat. simpl in S2.
  apply stat_inv in Hstat as (F2 & _ & Hstat); [|done].
  destruct Hstat as [->|(-> & f & Hf & ->)].
  { simpl. apply Hquit; [done|]. intros w'. apply (Hfail w2); congruence. }
  rewrite F1 in Hf. simpl.
  pose proof (same_store_matchpathcon pol path (f_mode f) w2) as S3.
  destruct (matchpathcon pol path (f_mode f) w2) as [[rc scon] w3] eqn:Hm.
  simpl in S3. apply same_store_steady in S3.
  pose proof (steady_trans _ _ _ S2 S3) as S13.
  apply matchpathcon_inv in Hm as (F3 & _ & Hm).
  assert (w_files w3 = w_files w) as F3' by congruence.
  destruct Hm as [[-> ->]|(-> & pattern & -> & Hdb)].
  { simpl. apply Hquit; [done|]. intros w'. by apply (Hfail w3). }
  simpl. destruct (context_parse pol pattern) as [s|] eqn:Hs.
  2:{ apply Hquit; [done|]. intros w'. by apply (Hfail w3). }
  assert (fd_path w3 fd = Some path) as Hfd3.
  { by rewrite (fd_path_steady w1 w3 fd S13). }
  pose proof (getfilecon_steady path fd w3) as S4.
  destruct ((if negb (fd =? 0) then fgetfilecon fd else lgetfilecon path) w3)
    as [[rc tcon] w4] eqn:Hg. simpl in S4.
  pose proof (steady_trans _ _ _ S13 S4) as S14.
  pose proof Hg as Hcode.
  apply getfilecon_inv in Hg as (F4 & _ & _); [|done].
  assert (w_files w4 = w_files w) as F4' by congruence.
  apply getfilecon_code in Hcode; [|done].
  destruct Hcode as [[-> ->]|(f' & cur & Hf' & Hcur & -> & ->)].
  { simpl. apply Hquit; [done|]. intros w'. by apply (Hfail w4). }
  rewrite F3' in Hf'.
  destruct (Z.eqb_spec (Z.of_nat (String.length cur) + 1) 0); [lia|].
  simpl. destruct (context_parse pol cur) as [c|] eqn:Hc.
  2:{ apply Hquit; [done|]. intros w' F'. right. right.
      split; [done|]. split; [congruence|]. by exists f', cur. }
  assert (fd_path w4 fd = Some path) as Hfd4.
  { by rewrite (fd_path_steady w1 w4 fd S14). }
  destruct (setfilecon_run path fd
              (context_str pol (merge_type s c)) w4 (λ _, Hfd4))
    as (rc' & w5 & -> & S5 & Hset).
  pose proof (steady_trans _ _ _ S14 S5) as S15.
  apply Hquit; [done|]. intros w' F'.
  destruct Hset as [[-> F5]|(-> & Hex & F5)].
  - right. left. split; [done|congruence].
  - left. split; [done|]. rewrite F4' in Hex, F5. split; [done|].
    eexists. by rewrite F', F5.
Qed.

Lemma restorecon_private_outcome path preserve w :
  ∃ rc w',
    restorecon_private pol path preserve w = (rc, w')
    ∧ relabel_frame w w' ∧ relabel_outcome pol path preserve w rc w'.
Proof.
  unfold restorecon_private, mbind, M_bind, log, mret, M_ret.
  destruct (restorecon_private_body_outcome path preserve w)
    as (rc & w1 & -> & Hframe & Hout).
  exists rc, (with_trace (w_trace w1 ++ [Relabeled path preserve rc]) w1).
  split; [done|]. split; [exact Hframe|exact Hout].
Qed.

End Outcome.

Section RelabelFacts.
Variable pol : policy.

(** X7. A relabel that fails changes no file: whenever
    [restorecon_private] returns a code other than 0, in either mode and
    whichever step failed, every object has the label, the mode and the
    link target it had. *)
Theorem restorecon_private_failure_changes_no_file path preserve w :
  (restorecon_private pol path preserve w).1 ≠ 0 →
  w_files (restorecon_private pol path preserve w).2 = w_files w.
Proof.
  destruct (restorecon_private_outcome pol path preserve w)
    as (rc & w' & -> & _ & Hout). simpl. intros Hrc.
  destruct Hout as [[-> _]|[[_ F]|(_ & F & _)]]; done.
Qed.

(** X8. A relabel touches the label of the object at [path] and nothing
    else in the file system: every other object is what it was, the object
    at [path] keeps its mode and its link target and is neither created nor
    removed, and the creation label of the process stays. *)
Theorem restorecon_private_touches_only_label_of_path path preserve w :
  let w' := (restorecon_private pol path preserve w).2 in
  (∀ q, q ≠ path → w_files w' !! q = w_files w !! q)
  ∧ shape <$> w_files w' !! path = shape <$> w_files w !! path
  ∧ w_fscreate w' = w_fscreate w.
Proof.
  destruct (restorecon_private_outcome pol path preserve w)
    as (rc & w' & -> & (C & _) & Hout). simpl.
  destruct Hout as [(_ & _ & con & ->)|[[_ ->]|(_ & -> & _)]];
    repeat split; try done.
  - intros q Hq. by rewrite lookup_alter_ne.
  - rewrite lookup_alter_eq. by destruct (w_files w !! path).
Qed.

(** X9. The return codes of a relabel: 0, or -1, or, in recompute mode
    when the label that the object carries does not parse, the positive
    length of that label with its terminator (the code that [fgetfilecon]
    or [lgetfilecon] returned). *)
Theorem restorecon_private_return_codes path preserve w :
  let rc := (restorecon_private pol path preserve w).1 in
  rc = 0 ∨ rc = -1
  ∨ (preserve = false
     ∧ ∃ f cur, w_files w !! path = Some f ∧ f_con f = Some cur
                ∧ context_parse pol cur = None
                ∧ rc = Z.of_nat (String.length cur) + 1).
Proof.
  destruct (restorecon_private_outcome pol path preserve w)
    as (rc & w' & -> & _ & Hout). simpl.
  destruct Hout as [[-> _]|[[-> _]|(-> & _ & H)]]; auto.
Qed.

(** X10. A relabel leaks no descriptor: unless a [close] is refused, the
    descriptor table after [restorecon_private] is the table before it, on
    every path through the function. *)
Theorem restorecon_private_closes_its_descriptor path preserve w :
  (∀ n fd, w_fault w n (Close fd) = None) →
  w_fds (restorecon_private pol path preserve w).2 = w_fds w.
Proof.
  destruct (restorecon_private_outcome pol path preserve w)
    as (rc & w' & -> & (_ & _ & _ & _ & D) & _). exact D.
Qed.

Lemma restorecon_private_labels_only path preserve w :
  labels_only w (restorecon_private pol path preserve w).2.
Proof.
  destruct (restorecon_private_outcome pol path preserve w)
    as (rc & w' & -> & (C & _ & G & K & _) & Hout). simpl.
  repeat split; try done. intros q.
  destruct Hout as [(_ & _ & con & ->)|[[_ ->]|(_ & -> & _)]]; try done.
  destruct (decide (path = q)) as [->|Hq].
  - rewrite lookup_alter_eq. by destruct (w_files w !! q).
  - by rewrite lookup_alter_ne.
Qed.

Lemma restorecon_private_frame path preserve w :
  w_fts (restorecon_private pol path preserve w).2 = w_fts w.
Proof.
  by destruct (restorecon_private_outcome pol path preserve w)
    as (rc & w' & -> & (_ & T & _) & _).
Qed.

End RelabelFacts.

(** ** The whole walk *)

Lemma entries_calls cs evs : entries (map Sys cs ++ evs) = entries evs.
Proof. induction cs as [|c cs IH]; simpl; [done|exact IH]. Qed.

Lemma relabeled_paths_calls cs evs :
  relabeled_paths (map Sys cs ++ evs) = relabeled_paths evs.
Proof. induction cs as [|c cs IH]; simpl; [done|exact IH]. Qed.

Lemma entries_app evs1 evs2 :
  entries (evs1 ++ evs2) = entries evs1 ++ entries evs2.
Proof.
  induction evs1 as [|e evs1 IH]; simpl; [done|].
  destruct e; simpl; by rewrite ?IH.
Qed.

Lemma relabeled_paths_app evs1 evs2 :
  relabeled_paths (evs1 ++ evs2)
  = relabeled_paths evs1 ++ relabeled_paths evs2.
Proof.
  induction evs1 as [|e evs1 IH]; simpl; [done|].
  destruct e; simpl; by rewrite ?IH.
Qed.

Section Tree.
Variable pol : policy.

Lemma keeps_labels_only_fts_open root : keeps labels_only (fts_open root).
Proof.
  apply (keeps_do_call labels_only labels_only_trans labels_only_errno
           labels_only_trace).
  by intros w.
Qed.

Lemma keeps_labels_only_fts_read fts : keeps labels_only (fts_read fts).
Proof.
  apply (keeps_do_call labels_only labels_only_trans labels_only_errno
           labels_only_trace).
  intros w. unfold fail_with. by repeat case_match.
Qed.

Lemma keeps_labels_only_fts_close fts : keeps labels_only (fts_close fts).
Proof.
  apply (keeps_do_call labels_only labels_only_trans labels_only_errno
           labels_only_trace).
  intros w. unfold fail_with. by repeat case_match.
Qed.

Lemma labels_only_bind {A B : Type} (m : M A) (f : A → M B) :
  keeps labels_only m → (∀ a, keeps labels_only (f a)) →
  keeps labels_only (m ≫= f).
Proof. apply keeps_bind, labels_only_trans. Qed.

Lemma labels_only_ret {A : Type} (a : A) : keeps labels_only (mret a).
Proof. apply keeps_ret, labels_only_refl. Qed.

Lemma keeps_labels_only_loop fuel :
  ∀ fts preserve ok,
    keeps labels_only (restorecon_loop pol fuel fts preserve ok).
Proof.
  induction fuel as [|fuel IH]; intros fts preserve ok; simpl; [apply labels_only_ret|].
  apply labels_only_bind; [apply keeps_labels_only_fts_read|intros [p|]].
  - apply labels_only_bind; [by intros w|intros path].
    apply labels_only_bind; [intros w; apply restorecon_private_labels_only|intros rc].
    apply IH.
  - apply labels_only_bind; [by intros w|intros errno].
    case_match; [|apply labels_only_ret].
    apply labels_only_bind; [|intros _; apply labels_only_ret].
    intros w. apply labels_only_trace.
Qed.

(** X11. [restorecon], with or without [recurse], changes labels and
    nothing else: no object appears or vanishes or changes its mode or its
    link target, and the creation label of the process is what it was. *)
Theorem restorecon_changes_labels_only fuel path recurse preserve w :
  let w' := (restorecon pol fuel path recurse preserve w).2 in
  w_fscreate w' = w_fscreate w
  ∧ ∀ q, shape <$> w_files w' !! q = shape <$> w_files w !! q.
Proof.
  assert (keeps labels_only (restorecon pol fuel path recurse preserve))
    as Hkeeps.
  { unfold restorecon. destruct recurse; simpl.
    - apply labels_only_bind; [apply keeps_labels_only_fts_open|intros fts].
      apply labels_only_bind; [apply keeps_labels_only_loop|intros [ok|]];
        [|apply labels_only_ret].
      apply labels_only_bind; [apply keeps_labels_only_fts_close|intros rc].
      case_match; [|apply labels_only_ret].
      apply labels_only_bind; [by intros w0|intros errno].
      apply labels_only_bind; [|intros _; apply labels_only_ret].
      intros w0. apply labels_only_trace.
    - apply labels_only_bind; [|intros rc; apply labels_only_ret].
      intros w0. apply restorecon_private_labels_only. }
  destruct (Hkeeps w) as (C & _ & _ & S). by split.
Qed.

(** [fts_read] returns NULL, at the end of the walk unless it is refused,
    or hands out the first pending entry. *)
Lemma fts_read_run fts w :
  (∃ w', fts_read fts w = (None, w')
         ∧ w_trace w' = w_trace w ++ [Sys Fts_read]
         ∧ (w_fault w (length (w_trace w)) Fts_read = None →
            pending fts w = []))
  ∨ (∃ p rest w',
       pending fts w = p :: rest
       ∧ fts_read fts w = (Some p, w')
       ∧ w_fts w' = Some (Fts p rest) ∧ w_fault w' = w_fault w
       ∧ w_trace w' = w_trace w ++ [Sys Fts_read; Walk_entry p]).
Proof.
  unfold fts_read, do_call, fail_with, pending.
  destruct (w_fault w (length (w_trace w)) Fts_read) as [e|]; simpl.
  { left. by eexists. }
  destruct fts; simpl; [left; by eexists|].
  destruct (w_fts w) as [t|] eqn:Ht; simpl; [|left; by eexists].
  destruct (fts_pending t) as [|p rest] eqn:Hp; [left; by eexists|].
  right. eexists p, rest, _. repeat split; simpl; try done.
  by rewrite <- app_assoc.
Qed.

(** The loop relabels what [fts_read] hands out, which is a prefix of what
    the handle has pending, and all of it when no [fts_read] is refused. *)
Lemma restorecon_loop_entries fuel :
  ∀ fts preserve ok w, (remaining fts w < fuel)%nat →
  ∃ r w' evs,
    restorecon_loop pol fuel fts preserve ok w = (Some r, w')
    ∧ w_trace w' = w_trace w ++ evs
    ∧ relabeled_paths evs = entries evs
    ∧ entries evs `prefix_of` pending fts w
    ∧ ((∀ n, w_fault w n Fts_read = None) → entries evs = pending fts w).
Proof.
  induction fuel as [|fuel IH]; intros fts preserve ok w Hfuel; [lia|].
  simpl. unfold mbind, M_bind.
  destruct (fts_read_run fts w) as
    [(w1 & -> & T1 & Hend)|(p & rest & w1 & Hp & -> & F1 & G1 & T1)].
  - unfold get_errno, error, log. simpl.
    destruct (w_errno w1 =? 0); simpl; eexists _, _, _;
      (split; [reflexivity|]); simpl; rewrite T1, <- ?app_assoc;
      (split; [reflexivity|]); simpl;
      (split; [done|]); (split; [apply prefix_nil|]);
      intros Hno; by rewrite Hend.
  - unfold read_fts_path at 1. rewrite F1. simpl.
    destruct (restorecon_private_events pol p preserve w1)
      as (rc & w2 & cs & -> & F2 & G2 & _ & T2).
    assert (fts = FtsHandle) as ->.
    { unfold pending in Hp. by destruct fts. }
    assert (pending FtsHandle w2 = rest) as Hp2.
    { unfold pending. by rewrite F2, F1. }
    destruct (IH FtsHandle preserve (and_assign ok rc) w2)
      as (r & w' & evs & -> & T & Hrel & Hpre & Hall).
    { unfold remaining, pending in *. rewrite F2, F1.
      destruct (w_fts w) as [t|]; [|done]. rewrite Hp in Hfuel.
      simpl in *. lia. }
    rewrite Hp2 in Hpre, Hall. rewrite Hp.
    eexists _, _, _. split; [reflexivity|].
    rewrite T, T2, T1, <- !app_assoc. split; [reflexivity|]. simpl.
    rewrite relabeled_paths_calls, entries_calls. simpl.
    split; [by rewrite Hrel|]. split; [by apply prefix_cons|].
    intros Hno. rewrite Hall; [done|]. intros n. rewrite G2, G1. apply Hno.
Qed.

(** X12. In preserve mode, with a creation label set and [fts_open] not
    refused, a recursive [restorecon] returns and has relabelled exactly
    what the walk handed out, entry by entry and in that order, each entry
    once per time it is handed out, whether its relabel failed or not; what
    is handed out is a prefix of the walk of [path], and the whole of it
    when no [fts_read] is refused. *)
Theorem restorecon_relabels_what_the_walk_yields fuel path w con :
  (length (w_walk w path) < fuel)%nat →
  w_fscreate w = Some con →
  w_fault w (length (w_trace w)) (Fts_open path) = None →
  ∃ r w' evs,
    restorecon pol fuel path true true w = (Some r, w')
    ∧ w_trace w' = w_trace w ++ evs
    ∧ relabeled_paths evs = entries evs
    ∧ entries evs `prefix_of` w_walk w path
    ∧ ((∀ n, w_fault w n Fts_read = None) → entries evs = w_walk w path).
Proof.
  intros Hfuel _ Hopen. unfold restorecon. simpl. unfold mbind, M_bind.
  unfold fts_open, do_call at 1. rewrite Hopen.
  set (w1 := with_fts _ _).
  assert (pending FtsHandle w1 = w_walk w path) as Hp by done.
  destruct (restorecon_loop_entries fuel FtsHandle true true w1)
    as (r & w2 & evs & -> & T2 & Hrel & Hpre & Hall).
  { unfold remaining. simpl. done. }
  rewrite Hp in Hpre, Hall.
  assert (∃ rc w3, fts_close FtsHandle w2 = (rc, w3)
                   ∧ w_trace w3 = w_trace w2 ++ [Sys Fts_close])
    as (rc & w3 & -> & T3).
  { unfold fts_close, do_call, fail_with.
    destruct (w_fault w2 _ _); [by eexists _, _|].
    simpl. destruct (w_fts w2); by eexists _, _. }
  unfold get_errno, error, log.
  destruct (rc =? 0); simpl; eexists _, _, _; (split; [reflexivity|]);
    simpl; rewrite T3, T2; subst w1; simpl; rewrite <- !app_assoc;
    (split; [reflexivity|]);
    simpl; rewrite relabeled_paths_app, entries_app; simpl;
    rewrite !app_nil_r; by repeat split.
Qed.

End Tree.

Section TreeRuns.
Variable pol : policy.



(** One preserve-mode relabel when nothing is refused and a creation label
    is set. *)
Lemma restorecon_private_preserve_step p w con :
  (∀ n c, w_fault w n c = None) → w_fscreate w = Some con →
  ∃ rc w',
    restorecon_private pol p true w = (rc, w')
    ∧ w_files w' = alter (relabel_file con) p (w_files w)
    ∧ w_fscreate w' = w_fscreate w ∧ w_fault w' = w_fault w
    ∧ w_fts w' = w_fts w.
Proof.
  intros Hno Hcon.
  unfold restorecon_private, restorecon_private_body, getfscreatecon,
    lsetfilecon, do_call, fail_with, log, set_label, mbind, M_bind, mret,
    M_ret.
  simpl. rewrite !Hno, Hcon. simpl. rewrite Hno.
  destruct (w_files w !! p) as [f|] eqn:Hf; simpl.
  - by eexists _, _; repeat split.
  - eexists _, _. repeat split; simpl; try done. by rewrite alter_id'.
Qed.

Lemma relabel_all_lookup con ps :
  ∀ fs q,
    relabel_all con ps fs !! q
    = if decide (q ∈ ps) then relabel_file con <$> fs !! q else fs !! q.
Proof.
  unfold relabel_all.
  induction ps as [|p ps IH]; intros fs q.
  - destruct (decide (q ∈ [])) as [H|_]; [by apply elem_of_nil in H|done].
  - simpl fold_left. rewrite IH.
    destruct (decide (q = p)) as [->|Hne].
    + rewrite lookup_alter_eq.
      destruct (decide (p ∈ p :: ps)) as [_|H];
        [|by destruct H; apply list_elem_of_here].
      destruct (decide (p ∈ ps)); [|done]. by destruct (fs !! p).
    + rewrite lookup_alter_ne by done.
      destruct (decide (q ∈ ps)) as [Hin|Hnin],
               (decide (q ∈ p :: ps)) as [Hin'|Hnin']; try done.
      * destruct Hnin'. by apply list_elem_of_further.
      * apply elem_of_cons in Hin' as [?|?]; done.
Qed.

Lemma restorecon_loop_preserve fuel con :
  ∀ ok w cur ps,
    w_fts w = Some (Fts cur ps) → (length ps < fuel)%nat →
    (∀ n c, w_fault w n c = None) → w_fscreate w = Some con →
    ∃ r w',
      restorecon_loop pol fuel FtsHandle true ok w = (Some r, w')
      ∧ w_files w' = relabel_all con ps (w_files w)
      ∧ w_fault w' = w_fault w ∧ is_Some (w_fts w').
Proof.
  induction fuel as [|fuel IH]; intros ok w cur ps Ht Hfuel Hno Hcon; [lia|].
  simpl. unfold mbind, M_bind.
  unfold fts_read, do_call. rewrite Hno. simpl. rewrite Ht.
  destruct ps as [|p rest]; simpl.
  { unfold get_errno, mret, M_ret. simpl. eexists _, _.
    split; [reflexivity|]. simpl. by rewrite Ht. }
  set (w1 := with_trace _ (with_fts _ _)).
  destruct (restorecon_private_preserve_step p w1 con)
    as (rc & w2 & -> & F2 & C2 & G2 & T2); [done..|].
  destruct (IH (and_assign ok rc) w2 p rest) as (r & w' & -> & F & G & T).
  - by rewrite T2.
  - simpl in Hfuel. lia.
  - intros n c. rewrite G2. apply Hno.
  - by rewrite C2.
  - exists r, w'. split; [done|]. rewrite F, F2. split; [done|].
    split; [|done]. by rewrite G, G2.
Qed.

(** X15. A recursive [restorecon] in preserve mode, when no call is
    refused and a creation label [con] is set, gives that label to every
    object of the walk that exists, and leaves every object outside the
    walk as it was. *)
Theorem restorecon_preserve_labels_the_walk fuel path w con :
  (length (w_walk w path) < fuel)%nat →
  (∀ n c, w_fault w n c = None) → w_fscreate w = Some con →
  ∃ r w',
    restorecon pol fuel path true true w = (Some r, w')
    ∧ (∀ q, q ∈ w_walk w path →
            f_con <$> w_files w' !! q = (λ _, Some con) <$> w_files w !! q)
    ∧ (∀ q, q ∉ w_walk w path → w_files w' !! q = w_files w !! q).
Proof.
  intros Hfuel Hno Hcon. unfold restorecon. simpl. unfold mbind, M_bind.
  unfold fts_open, do_call at 1. rewrite Hno.
  set (w1 := with_fts _ _).
  destruct (restorecon_loop_preserve fuel con true w1 path (w_walk w path))
    as (r & w2 & -> & F2 & G2 & [t Ht]); [done..|].
  unfold fts_close, do_call. rewrite G2. simpl. rewrite Hno, Ht. simpl.
  unfold mret, M_ret. eexists _, _. split; [reflexivity|]. simpl.
  rewrite F2. simpl. split; intros q Hq; rewrite relabel_all_lookup.
  - rewrite decide_True by done. by destruct (w_files w !! q).
  - by rewrite decide_False.
Qed.

End TreeRuns.

(** ** The further properties on the concrete system *)

Lemma mode_to_security_class_by_type_bits_witness :
  mode_to_security_class Demo.pol 16877
  = string_to_security_class Demo.pol "dir".
Proof.
  apply (mode_to_security_class_by_type_bits Demo.pol 16877 S_IFDIR "dir").
  - simpl. auto.
  - reflexivity.
Defined.

Lemma mode_to_security_class_unrecognized_witness :
  mode_to_security_class Demo.pol 420 Demo.w0
  = (0, with_errno EINVAL Demo.w0).
Proof.
  apply (mode_to_security_class_unrecognized Demo.pol 420 Demo.w0).
  intros name Hin. simpl in Hin.
  repeat (destruct Hin as [Hin|Hin]; [discriminate Hin|]). exact Hin.
Defined.

Lemma computecon_transition_from_parent_witness :
  ∃ dir tcon name,
    follow (w_files Demo.w0) 40 (dirname "/d/a") = inr dir
    ∧ f_con dir = Some tcon
    ∧ In (Z.land S_IFREG S_IFMT, name) class_table
    ∧ class_db Demo.pol name ≠ 0
    ∧ compute_create_db Demo.pol (w_con Demo.w0) tcon (class_db Demo.pol name)
      = Some Demo.transition_label.
Proof.
  apply (computecon_transition_from_parent Demo.pol "/d/a" S_IFREG Demo.w0 0
           Demo.transition_label
           (computecon Demo.pol "/d/a" S_IFREG Demo.w0).2).
  vm_compute. reflexivity.
Defined.

Lemma defaultcon_unrecognized_mode_fails_witness :
  (defaultcon Demo.pol "/d/a" 420 Demo.w0).1 = -1
  ∧ same_store Demo.w0 (defaultcon Demo.pol "/d/a" 420 Demo.w0).2.
Proof.
  apply (defaultcon_unrecognized_mode_fails Demo.pol "/d/a" 420 Demo.w0).
  intros name Hin. simpl in Hin.
  repeat (destruct Hin as [Hin|Hin]; [discriminate Hin|]). exact Hin.
Defined.

Lemma restorecon_private_failure_changes_no_file_witness :
  w_files (restorecon_private Demo.pol "/d/l" false Demo.w0).2
  = w_files Demo.w0.
Proof.
  apply (restorecon_private_failure_changes_no_file Demo.pol "/d/l" false
           Demo.w0).
  vm_compute. discriminate.
Defined.

Lemma restorecon_private_return_codes_witness :
  (restorecon_private Demo.pol "/d/a" false Demo.w4).1 = 8
  ∧ ∃ f cur, w_files Demo.w4 !! "/d/a" = Some f ∧ f_con f = Some cur
             ∧ context_parse Demo.pol cur = None
             ∧ (restorecon_private Demo.pol "/d/a" false Demo.w4).1
               = Z.of_nat (String.length cur) + 1.
Proof.
  split; [vm_compute; reflexivity|].
  destruct (restorecon_private_return_codes Demo.pol "/d/a" false Demo.w4)
    as [H|[H|[_ H]]].
  - vm_compute in H. discriminate H.
  - vm_compute in H. discriminate H.
  - exact H.
Defined.

Lemma restorecon_private_closes_its_descriptor_witness :
  w_fds (restorecon_private Demo.pol "/d/a" false Demo.w0).2 = w_fds Demo.w0.
Proof.
  apply (restorecon_private_closes_its_descriptor Demo.pol "/d/a" false
           Demo.w0).
  reflexivity.
Defined.

Lemma restorecon_relabels_what_the_walk_yields_witness :
  ∃ r w' evs,
    restorecon Demo.pol 6 "/d" true true Demo.w1 = (Some r, w')
    ∧ w_trace w' = w_trace Demo.w1 ++ evs
    ∧ relabeled_paths evs = entries evs
    ∧ entries evs `prefix_of` w_walk Demo.w1 "/d"
    ∧ ((∀ n, w_fault Demo.w1 n Fts_read = None) →
       entries evs = w_walk Demo.w1 "/d").
Proof.
  apply (restorecon_relabels_what_the_walk_yields Demo.pol 6 "/d" Demo.w1
           "a_u:b_r:c_t:s3").
  - vm_compute. lia.
  - reflexivity.
  - reflexivity.
Defined.



Lemma restorecon_preserve_labels_the_walk_witness :
  ∃ r w',
    restorecon Demo.pol 6 "/d" true true Demo.w0 = (Some r, w')
    ∧ (∀ q, q ∈ w_walk Demo.w0 "/d" →
            f_con <$> w_files w' !! q
            = (λ _, Some "a_u:b_r:c_t:s3"%string) <$> w_files Demo.w0 !! q)
    ∧ (∀ q, q ∉ w_walk Demo.w0 "/d" →
            w_files w' !! q = w_files Demo.w0 !! q).
Proof.
  apply (restorecon_preserve_labels_the_walk Demo.pol 6 "/d" Demo.w0
           "a_u:b_r:c_t:s3").
  - vm_compute. lia.
  - reflexivity.
  - reflexivity.
Defined.
